(** * grug-video-editor: the frame pipeline of [main.py]

    A shallow embedding of the pipeline filters and of the pipeline engine.

    Python lists and numpy arrays are mutable objects that are passed by
    reference, and one filter ([overlay_text]) draws into the buffers it is
    given.  The embedding therefore keeps an object store: a filter receives
    the address of a list object and returns the address of a list object.
    Everything written with [print] goes to a log kept in the same state.
    OpenCV and the file system are outside the repository; they appear as the
    interface [Cv2], over which every definition that uses them is
    parametrised. *)

From stdpp Require Import gmap strings list fin_maps.
From Stdlib Require Import ZArith Lia Ascii.

Open Scope Z_scope.

(** ** Python values that the filters handle *)

(** A numpy array: its [shape] tuple and its buffer, row-major. *)
Record ndarray := NdArray { shape : list nat; data : list Z }.

Global Instance ndarray_eq_dec : EqDecision ndarray.
Proof. solve_decision. Defined.

(** Addresses of heap objects. *)
Abbreviation loc := positive.

(** The two kinds of object the filters touch: a list (of references) and an
    array. *)
Inductive obj :=
  | OList (items : list loc)
  | OArr (a : ndarray).

Global Instance obj_eq_dec : EqDecision obj.
Proof. solve_decision. Defined.

(** Argument values of a pipeline step (everything after [step[0]]). *)
Inductive value :=
  | VStr (s : string)
  | VInt (z : Z)
  | VTuple (zs : list Z).

(** Exceptions.  None is caught anywhere in [main.py], so a raised exception
    ends the run.  [DigitsValueError] is the [ValueError] that CPython raises
    when an integer of more than 4300 digits is turned into a string. *)
Inductive exn :=
  | AssertionError (msg : string)
  | TypeError
  | Cv2Error
  | DigitsValueError.

(** One entry per [print] call of the filters and the engine, carrying the
    values its f-string interpolates. *)
Inductive line :=
  | ErrCannotOpen (full_path : string)
  | AppendedFrames (n : nat) (video_path : string)
  | ErrCannotOpenImage (image_path : string)
  | AppendedImage (image_path : string)
  | CutFrames (count start start_idx end_idx : Z)
  | Applying (name : string) (args : list value).

(** ** Interpreter state and the monad of a run *)

Record state := State { heap : gmap loc obj; stdout : list line }.

Inductive result (A : Type) :=
  | Ok (a : A)
  | Raise (e : exn).
Arguments Ok {A} a.
Arguments Raise {A} e.

Definition M (A : Type) : Type := state -> result (A * state).

Definition ret {A} (a : A) : M A := fun s => Ok (a, s).

Definition bind {A B} (m : M A) (k : A -> M B) : M B :=
  fun s => match m s with
           | Ok (a, s') => k a s'
           | Raise e => Raise e
           end.

Definition raise {A} (e : exn) : M A := fun _ => Raise e.

Declare Scope py_scope.
Delimit Scope py_scope with py.
Notation "x <- m ;; k" := (bind m (fun x => k))
  (at level 100, m at next level, right associativity) : py_scope.
Notation "m ;; k" := (bind m (fun _ => k))
  (at level 100, right associativity) : py_scope.
Open Scope py_scope.

(** ** Formatting integers

    The f-strings of lines 49-50 and 83 turn integers into decimal strings,
    and CPython refuses to do so for an integer of more than
    [sys.get_int_max_str_digits()] digits, 4300 by default. *)

Definition max_str_digits : Z := 4300.

(** The least number of 4301 digits, [10 ** 4300]. *)
Definition str_limit : Z := Eval vm_compute in 10 ^ 4300.

(** [str(z)] returns. *)
Definition fits (z : Z) : bool := Z.abs z <? str_limit.

(** [str(z)] returns for an integer printed beside a list of [n] items.  A
    Python list holds at most [sys.maxsize] items, a number of 19 digits, so
    an integer that does not exceed the length of a list is within the
    limit. *)
Definition fits_within (n z : Z) : bool := fits z || (Z.abs z <=? n).

(** [repr(v)] returns, for an argument in the tuple that line 83 prints. *)
Definition value_fits (v : value) : bool :=
  match v with
  | VStr _ => true
  | VInt z => fits z
  | VTuple zs => forallb fits zs
  end.

(** The f-string of the line can be built.  On line 49 the four integers are
    [count], [start], [start_idx] and [end_idx], and the length of the list
    is [start + end_idx]; the number on line 24 is a length. *)
Definition formats (ln : line) : bool :=
  match ln with
  | CutFrames count start start_idx end_idx =>
      let n := start + end_idx in
      fits_within n count && fits_within n start
      && fits_within n start_idx && fits_within n end_idx
  | Applying _ args => forallb value_fits args
  | _ => true
  end.

(** [print(f"...")]: the string is built, which may raise, and written. *)
Definition print (ln : line) : M unit :=
  fun s => if formats ln
           then Ok (tt, State (heap s) (stdout s ++ [ln]))
           else Raise DigitsValueError.

(** Creation of a new object at an unused address. *)
Definition alloc (o : obj) : M loc :=
  fun s => let l := fresh (dom (heap s)) in
           Ok (l, State (<[l := o]> (heap s)) (stdout s)).

(** Reading a reference as a list; any other object there is a type error. *)
Definition get_list (l : loc) : M (list loc) :=
  fun s => match heap s !! l with
           | Some (OList items) => Ok (items, s)
           | _ => Raise TypeError
           end.

(** Reading a reference as an array. *)
Definition get_array (l : loc) : M ndarray :=
  fun s => match heap s !! l with
           | Some (OArr a) => Ok (a, s)
           | _ => Raise TypeError
           end.

(** Overwriting the buffer of an existing array, in place. *)
Definition set_array (l : loc) (a : ndarray) : M unit :=
  fun s => match heap s !! l with
           | Some (OArr _) => Ok (tt, State (<[l := OArr a]> (heap s)) (stdout s))
           | _ => Raise TypeError
           end.

(** A library call that either returns or raises. *)
Definition lift {A} (r : result A) : M A :=
  fun s => match r with
           | Ok a => Ok (a, s)
           | Raise e => Raise e
           end.

(** [assert cond, msg] *)
Definition assert (cond : bool) (msg : string) : M unit :=
  if cond then ret tt else raise (AssertionError msg).

(** A comprehension body or loop body run over the items of a list, in
    order, collecting the results. *)
Fixpoint for_each {A B} (body : A -> M B) (xs : list A) : M (list B) :=
  match xs with
  | [] => ret []
  | x :: rest =>
      y <- body x;;
      ys <- for_each body rest;;
      ret (y :: ys)
  end.

(** ** Slicing *)

(** Python's adjustment of one slice bound for a sequence of length [n]: a
    negative bound counts from the end, and the outcome is clipped to
    [0 .. n]. *)
Definition slice_index (n i : Z) : Z :=
  if i <? 0 then Z.max 0 (i + n) else Z.min i n.

(** [xs[lo:hi]], an absent bound written [None]. *)
Definition slice {A} (xs : list A) (lo hi : option Z) : list A :=
  let n := Z.of_nat (length xs) in
  let lo' := match lo with Some i => slice_index n i | None => 0 end in
  let hi' := match hi with Some i => slice_index n i | None => n end in
  take (Z.to_nat (hi' - lo')) (drop (Z.to_nat lo') xs).

(** [len(xs)] *)
Definition len {A} (xs : list A) : Z := Z.of_nat (length xs).

(** ** Pipeline filters *)

(** [cut(frames, start, count)], lines 39-51. *)
Definition cut (frames : loc) (start count : Z) : M loc :=
  assert ((0 <=? start) && (0 <=? count)) "cut() indices must be non-negative";;
  items <- get_list frames;;
  let end_idx := len items - start in
  let start_idx := Z.max 0 (end_idx - count) in
  new_frames <- alloc (OList (slice items None (Some start_idx)
                              ++ slice items (Some end_idx) None));;
  print (CutFrames count start start_idx end_idx);;
  ret new_frames.

(** ** OpenCV and the files it reads *)

Inductive ColorConversionCode := COLOR_BGR2GRAY | COLOR_GRAY2BGR.
Inductive HersheyFont := FONT_HERSHEY_SIMPLEX.

(** What [main.py] uses of [cv2].  Arguments that Python passes on unchecked
    stay [value]s: the library is what rejects an ill-typed one.
    - [VideoCapture p] is [None] when [isOpened()] is false, and otherwise the
      frames that successive [read()] calls deliver before [ret] is false;
    - [imread p] is [None] when the file cannot be read;
    - [putText] gives the content of the image buffer after the drawing. *)
Class Cv2 := {
  VideoCapture : string -> option (list ndarray);
  imread : string -> option ndarray;
  cvtColor : ndarray -> ColorConversionCode -> result ndarray;
  GaussianBlur : ndarray -> value -> Z -> result ndarray;
  putText : ndarray -> value -> value -> HersheyFont -> Z -> value -> Z
            -> result ndarray
}.

(** [os.path.join(a, p)] on a POSIX system. *)
Definition os_path_join (a p : string) : string :=
  if String.prefix "/" p then p
  else if (String.length a =? 0)%nat then p
  else match String.get (String.length a - 1) a with
       | Some "/"%char => a +:+ p
       | _ => a +:+ "/" +:+ p
       end.

Section Filters.
Context `{cv : Cv2}.

(** The [while True] loop of [append_video], lines 17-21: [cap] holds the
    frames not read yet, and every [cap.read()] hands out a new array. *)
Fixpoint read_frames (cap : list ndarray) (new_frames : list loc)
  : M (list loc) :=
  match cap with
  | [] => ret new_frames
  | frame :: cap' =>
      f <- alloc (OArr frame);;
      read_frames cap' (new_frames ++ [f])
  end.

(** [append_video(frames, video_path)], lines 8-25. *)
Definition append_video (frames : loc) (video_path : string) : M loc :=
  let full_path := os_path_join "input" video_path in
  match VideoCapture full_path with
  | None =>
      print (ErrCannotOpen full_path);;
      ret frames
  | Some cap =>
      new_frames <- read_frames cap [];;
      print (AppendedFrames (length new_frames) video_path);;
      items <- get_list frames;;
      alloc (OList (items ++ new_frames))
  end.

(** [append_image(frames, image_path)], lines 28-36. *)
Definition append_image (frames : loc) (image_path : string) : M loc :=
  let full_path := os_path_join "input" image_path in
  match imread full_path with
  | None =>
      print (ErrCannotOpenImage image_path);;
      ret frames
  | Some pixels =>
      img <- alloc (OArr pixels);;
      print (AppendedImage image_path);;
      items <- get_list frames;;
      alloc (OList (items ++ [img]))
  end.

(** [to_grayscale(frames)], lines 54-55. *)
Definition to_grayscale (frames : loc) : M loc :=
  items <- get_list frames;;
  out <- for_each (fun f =>
                     a <- get_array f;;
                     g <- lift (cvtColor a COLOR_BGR2GRAY);;
                     alloc (OArr g)) items;;
  alloc (OList out).

(** [ensure_3channel(frames)], lines 58-60. *)
Definition ensure_3channel (frames : loc) : M loc :=
  items <- get_list frames;;
  out <- for_each (fun f =>
                     a <- get_array f;;
                     if (length (shape a) =? 2)%nat
                     then g <- lift (cvtColor a COLOR_GRAY2BGR);;
                          alloc (OArr g)
                     else ret f) items;;
  alloc (OList out).

(** [blur_frames(frames, ksize)], lines 63-64. *)
Definition blur_frames (frames : loc) (ksize : value) : M loc :=
  items <- get_list frames;;
  out <- for_each (fun f =>
                     a <- get_array f;;
                     g <- lift (GaussianBlur a ksize 0);;
                     alloc (OArr g)) items;;
  alloc (OList out).

(** [overlay_text(frames, text, position, color)], lines 67-71. *)
Definition overlay_text (frames : loc) (text position color : value)
  : M loc :=
  items <- get_list frames;;
  for_each (fun f =>
              a <- get_array f;;
              a' <- lift (putText a text position FONT_HERSHEY_SIMPLEX 1
                                  color 2);;
              set_array f a') items;;
  ret frames.

(** ** Pipeline engine *)

(** A function object as a step names it: its [__name__] and what calling
    it with the frames and the unpacked arguments does. *)
Record callable := Callable {
  fn_name : string;
  fn_call : loc -> list value -> M loc
}.

(** A pipeline step, the tuple [(func, arg, ...)]. *)
Record step := Step { step_func : callable; step_args : list value }.

(** [apply_pipeline(frames, pipeline)], lines 78-85. *)
Fixpoint apply_pipeline (frames : loc) (pipeline : list step) : M loc :=
  match pipeline with
  | [] => ret frames
  | st :: rest =>
      let func := step_func st in
      let args := step_args st in
      print (Applying (fn_name func) args);;
      frames' <- fn_call func frames args;;
      apply_pipeline frames' rest
  end.

(** The filters as Python calls them: positional arguments bound to the
    parameters, defaults filled in, a wrong number of arguments or an
    argument the first statement cannot use being a [TypeError].  In [cut]
    the first statement is the assertion, whose [and] does not look at
    [count] when [start] is negative. *)
Definition append_video_fn : callable :=
  Callable "append_video" (fun frames args =>
    match args with
    | [VStr video_path] => append_video frames video_path
    | _ => raise TypeError
    end).

Definition append_image_fn : callable :=
  Callable "append_image" (fun frames args =>
    match args with
    | [VStr image_path] => append_image frames image_path
    | _ => raise TypeError
    end).

Definition cut_fn : callable :=
  Callable "cut" (fun frames args =>
    match args with
    | [VInt start; VInt count] => cut frames start count
    | [VInt start; _] =>
        if start <? 0
        then raise (AssertionError "cut() indices must be non-negative")
        else raise TypeError
    | _ => raise TypeError
    end).

Definition to_grayscale_fn : callable :=
  Callable "to_grayscale" (fun frames args =>
    match args with
    | [] => to_grayscale frames
    | _ => raise TypeError
    end).

Definition ensure_3channel_fn : callable :=
  Callable "ensure_3channel" (fun frames args =>
    match args with
    | [] => ensure_3channel frames
    | _ => raise TypeError
    end).

Definition blur_frames_fn : callable :=
  Callable "blur_frames" (fun frames args =>
    match args with
    | [] => blur_frames frames (VTuple [7; 7])
    | [ksize] => blur_frames frames ksize
    | _ => raise TypeError
    end).

Definition overlay_text_fn : callable :=
  Callable "overlay_text" (fun frames args =>
    match args with
    | [text] =>
        overlay_text frames text (VTuple [50; 50]) (VTuple [0; 255; 0])
    | [text; position] =>
        overlay_text frames text position (VTuple [0; 255; 0])
    | [text; position; color] => overlay_text frames text position color
    | _ => raise TypeError
    end).

(** The pipeline that [main] declares, lines 143-155. *)
Definition main_pipeline : list step :=
  [ Step append_video_fn [VStr "maw.webm"];
    Step cut_fn [VInt 300; VInt 50];
    Step cut_fn [VInt 100; VInt 100];
    Step append_video_fn [VStr "food.webm"];
    Step cut_fn [VInt 100; VInt 200];
    Step to_grayscale_fn [];
    Step ensure_3channel_fn [];
    Step append_image_fn [VStr "huh.png"];
    Step append_image_fn [VStr "drool.gif"];
    Step blur_frames_fn [VTuple [9; 9]];
    Step overlay_text_fn
         [VStr "Cats"; VTuple [30; 60]; VTuple [255; 200; 200]] ].

(** [frames = []; processed_frames = apply_pipeline(frames, pipeline)],
    lines 162-163. *)
Definition main_frames : M loc :=
  frames <- alloc (OList []);;
  apply_pipeline frames main_pipeline.

End Filters.

(** ** An executable stand-in for OpenCV

    Used only to run the filters on concrete inputs.  The general theorems
    below quantify over every [Cv2]. *)

Fixpoint bgr2gray (d : list Z) : list Z :=
  match d with
  | b :: g :: r :: rest =>
      ((114 * b + 587 * g + 299 * r + 500) / 1000) :: bgr2gray rest
  | _ => []
  end.

Definition gray2bgr (d : list Z) : list Z :=
  flat_map (fun v => [v; v; v]) d.

Definition sample_frame (tag : Z) : ndarray :=
  NdArray [1; 2; 3]%nat [tag; tag; tag; 0; 0; 0].

Definition sample_cvtColor (a : ndarray) (code : ColorConversionCode)
  : result ndarray :=
  match code, shape a with
  | COLOR_BGR2GRAY, [h; w; 3%nat] =>
      Ok (NdArray [h; w] (bgr2gray (data a)))
  | COLOR_GRAY2BGR, [h; w] =>
      Ok (NdArray [h; w; 3%nat] (gray2bgr (data a)))
  | _, _ => Raise Cv2Error
  end.

Definition sample_putText (a : ndarray) (text org : value)
    (font : HersheyFont) (scale : Z) (color : value) (thickness : Z)
  : result ndarray :=
  match text, org, color with
  | VStr _, VTuple [_; _], VTuple (c :: _) =>
      Ok (NdArray (shape a) (c :: tail (data a)))
  | _, _, _ => Raise Cv2Error
  end.

Definition sample_cv2 : Cv2 := {|
  VideoCapture p :=
    if String.eqb p "input/maw.webm"
    then Some [sample_frame 1; sample_frame 2; sample_frame 3]
    else None;
  imread p :=
    if String.eqb p "input/huh.png" then Some (sample_frame 9) else None;
  cvtColor := sample_cvtColor;
  GaussianBlur a ksize sigma :=
    match ksize with
    | VTuple [kw; kh] =>
        if Z.odd kw && Z.odd kh then Ok a else Raise Cv2Error
    | _ => Raise Cv2Error
    end;
  putText := sample_putText
|}.

(** ** Reading a sequence by value *)

Definition array_at (s : state) (f : loc) : option ndarray :=
  match heap s !! f with
  | Some (OArr a) => Some a
  | _ => None
  end.

(** The frames of the list at [l], as values, when [l] is a list all of
    whose items are arrays. *)
Definition seq_value (s : state) (l : loc) : option (list ndarray) :=
  match heap s !! l with
  | Some (OList items) => mapM (array_at s) items
  | _ => None
  end.

(** The references held by the list at [l]. *)
Definition seq_items (s : state) (l : loc) : option (list loc) :=
  match heap s !! l with
  | Some (OList items) => Some items
  | _ => None
  end.

(** A state holding one list of frames, made from the given arrays. *)
Definition empty_state : state := State ∅ [].

Definition new_sequence (frames : list ndarray) : M loc :=
  items <- for_each (fun a => alloc (OArr a)) frames;;
  alloc (OList items).

(** A frame that carries its original index. *)
Definition tagged (i : nat) : ndarray := NdArray [1; 1]%nat [Z.of_nat i].

(** The value of a run started in the empty state. *)
Definition run_value (m : M loc) : option (list ndarray) :=
  match m empty_state with
  | Ok (r, s) => seq_value s r
  | Raise _ => None
  end.

(** ** Sinks: saving and playing

    [save_video] and [play_video] read the frames and talk to the outside
    world: the file system, a video writer, a window.  What they do there is
    kept as the sequence of calls they make, in order, together with how the
    call ended. *)

Inductive sink_event :=
  | NoFramesToSave
  | MakeDirs (path : string)
  | OpenWriter (output_path fourcc : string) (fps : Z) (width height : nat)
  | WriteFrame (a : ndarray)
  | ReleaseWriter
  | SavedFrames (n : nat) (output_path : string)
  | NoFramesToDisplay
  | ImShow (winname : string) (a : ndarray)
  | DestroyAllWindows.

(** Exceptions of the sinks. *)
Inductive sink_exn :=
  | SinkTypeError
  | ValueError
  | IndexError.

(** The calls made so far and, at the end, an exception or a value. *)
Record outcome (A : Type) := Outcome {
  events : list sink_event;
  ending : sink_exn + A
}.
Arguments Outcome {A} events ending.
Arguments events {A} o.
Arguments ending {A} o.

Definition finished {A} (a : A) : outcome A := Outcome [] (inr a).

Definition emit (e : sink_event) : outcome unit := Outcome [e] (inr tt).

Definition throw {A} (e : sink_exn) : outcome A := Outcome [] (inl e).

Definition and_then {A B} (m : outcome A) (k : A -> outcome B) : outcome B :=
  match ending m with
  | inl e => Outcome (events m) (inl e)
  | inr a => let o := k a in Outcome (events m ++ events o) (ending o)
  end.

Declare Scope sink_scope.
Delimit Scope sink_scope with sink.
Notation "x <- m ;; k" := (and_then m (fun x => k))
  (at level 100, m at next level, right associativity) : sink_scope.
Notation "m ;; k" := (and_then m (fun _ => k))
  (at level 100, right associativity) : sink_scope.

(** The list object at [l]. *)
Definition list_at (s : state) (l : loc) : outcome (list loc) :=
  match heap s !! l with
  | Some (OList items) => finished items
  | _ => throw SinkTypeError
  end.

(** The array at [f]. *)
Definition frame_at (s : state) (f : loc) : outcome ndarray :=
  match heap s !! f with
  | Some (OArr a) => finished a
  | _ => throw SinkTypeError
  end.

(** [xs[i]]: a negative index counts from the end, and an index outside the
    list raises. *)
Definition py_index {A} (xs : list A) (i : Z) : outcome A :=
  let j := if i <? 0 then i + len xs else i in
  if (0 <=? j) && (j <? len xs)
  then match xs !! Z.to_nat j with
       | Some x => finished x
       | None => throw IndexError
       end
  else throw IndexError.

Fixpoint drop_while {A} (p : A -> bool) (xs : list A) : list A :=
  match xs with
  | [] => []
  | x :: rest => if p x then drop_while p rest else xs
  end.

Definition is_slash (c : ascii) : bool := Ascii.eqb c "/".

(** [os.path.dirname(p)] on a POSIX system: the part up to the last slash,
    its trailing slashes stripped unless it consists of slashes only. *)
Definition os_path_dirname (p : string) : string :=
  let rev_head :=
    drop_while (fun c => negb (is_slash c)) (rev (String.list_ascii_of_string p)) in
  let rev_head :=
    if forallb is_slash rev_head then rev_head
    else drop_while is_slash rev_head in
  String.string_of_list_ascii (rev rev_head).

Section Sinks.
Local Open Scope sink_scope.

(** The loop of [save_video], lines 103-104. *)
Fixpoint write_frames (s : state) (items : list loc) : outcome unit :=
  match items with
  | [] => finished tt
  | f :: rest =>
      a <- frame_at s f;;
      emit (WriteFrame a);;
      write_frames s rest
  end.

(** [save_video(frames, output_path, fps)], lines 92-106. *)
Definition save_video (s : state) (frames : loc) (output_path : string)
    (fps : Z) : outcome unit :=
  items <- list_at s frames;;
  match items with
  | [] => emit NoFramesToSave
  | first :: _ =>
      a <- frame_at s first;;
      match shape a with
      | h :: w :: _ =>
          let dir := os_path_dirname output_path in
          emit (MakeDirs (if String.eqb dir "" then "." else dir));;
          emit (OpenWriter output_path "mp4v" fps w h);;
          write_frames s items;;
          emit ReleaseWriter;;
          emit (SavedFrames (length items) output_path)
      | _ => throw ValueError
      end
  end.

(** How a run of the player stands: stopped, or blocked in [waitKey] with
    these values of [current] and [playing]. *)
Inductive player :=
  | Stopped
  | Waiting (current : Z) (playing : bool).

(** The key handling of one turn of the loop, lines 124-132, for a key other
    than ESC; [n] is [len(frames)]. *)
Definition tick (n key current : Z) (playing : bool) : Z * bool :=
  let '(current, playing) :=
    if key =? 32 then (current, negb playing)
    else if key =? 81 then (Z.max 0 (current - 1), playing)
    else if key =? 83 then (Z.min (n - 1) (current + 1), playing)
    else (current, playing) in
  if playing then ((current + 1) mod n, playing) else (current, playing).

(** The [while True] loop of [play_video], lines 118-132.  [keys] are the
    values that the successive [cv2.waitKey(delay)] calls return; when they
    run out the player is left waiting for the next one. *)
Fixpoint play_loop (s : state) (items : list loc) (keys : list Z)
    (current : Z) (playing : bool) : outcome player :=
  f <- py_index items current;;
  a <- frame_at s f;;
  emit (ImShow "Video Player" a);;
  match keys with
  | [] => finished (Waiting current playing)
  | k :: rest =>
      let key := Z.land k 255 in
      if key =? 27 then finished Stopped
      else let '(current, playing) := tick (len items) key current playing in
           play_loop s items rest current playing
  end.

(** [play_video(frames, delay)], lines 109-134.  [delay] only reaches
    [cv2.waitKey], whose successive returns are [keys]. *)
Definition play_video (s : state) (frames : loc) (keys : list Z)
  : outcome player :=
  items <- list_at s frames;;
  match items with
  | [] => emit NoFramesToDisplay;; finished Stopped
  | _ :: _ =>
      p <- play_loop s items keys 0 true;;
      match p with
      | Stopped => emit DestroyAllWindows;; finished Stopped
      | Waiting current playing => finished (Waiting current playing)
      end
  end.

End Sinks.

(** * Vocabulary of the properties *)

(** ** Effects on the store *)

(** [grows m]: a run of [m] leaves every object that existed before it as
    it was. *)
Definition grows {A} (m : M A) : Prop :=
  forall s a s', m s = Ok (a, s') -> heap s ⊆ heap s'.

(** The list at [frames] and every array it holds are, after the call, what
    they were before it. *)
Definition input_unchanged (s s' : state) (frames : loc) : Prop :=
  forall items, heap s !! frames = Some (OList items) ->
    heap s' !! frames = Some (OList items)
    /\ forall f a, f ∈ items -> heap s !! f = Some (OArr a) ->
                   heap s' !! f = Some (OArr a).

(** [r] is a list object that did not exist before the call. *)
Definition new_list (s s' : state) (r : loc) : Prop :=
  heap s !! r = None /\ exists items', heap s' !! r = Some (OList items').

(** Every returning call of [filter] leaves its input unchanged. *)
Definition keeps_input (filter : loc -> M loc) : Prop :=
  forall s frames r s',
    filter frames s = Ok (r, s') -> input_unchanged s s' frames.

(** Every returning call of [filter] returns a new list. *)
Definition returns_new (filter : loc -> M loc) : Prop :=
  forall s frames r s', filter frames s = Ok (r, s') -> new_list s s' r.

(** A pure filter: input unchanged, new sequence returned. *)
Definition pure (filter : loc -> M loc) : Prop :=
  keeps_input filter /\ returns_new filter.

(** The frame at [f] is an array that is not two-dimensional. *)
Definition multi_channel (s : state) (f : loc) : Prop :=
  exists a, heap s !! f = Some (OArr a) /\ length (shape a) <> 2%nat.

(** ** The result of [cut] *)

(** An integer that line 49 can print beside a list of [n] items: below
    [10 ** 4300], or not beyond the length of the list. *)
Definition printable (n z : Z) : Prop := z < str_limit \/ z <= n.

(** The list that [cut] builds on lines 46-48, as a function of the items of
    [frames]. *)
Definition kept {A} (items : list A) (start count : Z) : list A :=
  slice items None (Some (Z.max 0 (len items - start - count)))
  ++ slice items (Some (len items - start)) None.

(** The length that the specification states for [cut(s, start, count)],
    read off its formula, [n] being [len(s)]. *)
Definition spec_cut_length (n start count : Z) : Z :=
  n - (Z.min n (Z.max 0 (n - start)) - Z.max 0 (Z.max 0 (n - start) - count)).

(** ** Loop bodies *)

Section Bodies.
Context `{cv : Cv2}.

(** One turn of the loop of [apply_pipeline], lines 81-84. *)
Definition run_step (st : step) (frames : loc) : M loc :=
  print (Applying (fn_name (step_func st)) (step_args st));;
  fn_call (step_func st) frames (step_args st).

(** The body of the loop on lines 69-70. *)
Definition draw (text position color : value) (f : loc) : M unit :=
  a <- get_array f;;
  a' <- lift (putText a text position FONT_HERSHEY_SIMPLEX 1 color 2);;
  set_array f a'.

(** The expression of the comprehension on line 60. *)
Definition ensure_frame (f : loc) : M loc :=
  a <- get_array f;;
  if (length (shape a) =? 2)%nat
  then g <- lift (cvtColor a COLOR_GRAY2BGR);;
       alloc (OArr g)
  else ret f.

End Bodies.

(** ** Stores and calls that the examples use *)

(** A small store: three tagged frames at addresses 1-3 and the list
    [[1; 2; 3]] at address 4. *)
Definition three_frames : state :=
  State (<[4%positive := OList [1; 2; 3]%positive]>
           (<[3%positive := OArr (tagged 2)]>
              (<[2%positive := OArr (tagged 1)]>
                 (<[1%positive := OArr (tagged 0)]> ∅)))) [].

(** A store holding the empty list at address 1: [frames = []]. *)
Definition no_frames : state := State (<[1%positive := OList []]> ∅) [].

(** Two colour frames at addresses 1 and 2, a grey frame at 3, and the list
    of the three at address 4. *)
Definition mixed_frames : state :=
  State (<[4%positive := OList [1; 2; 3]%positive]>
           (<[3%positive := OArr (tagged 7)]>
              (<[2%positive := OArr (sample_frame 2)]>
                 (<[1%positive := OArr (sample_frame 1)]> ∅)))) [].

(** Two colour frames at addresses 1 and 2 and their list at address 3. *)
Definition colour_frames : state :=
  State (<[3%positive := OList [1; 2]%positive]>
           (<[2%positive := OArr (sample_frame 2)]>
              (<[1%positive := OArr (sample_frame 1)]> ∅))) [].

(** A library in which no file can be opened. *)
Definition offline_cv2 : Cv2 := {|
  VideoCapture p := None;
  imread p := None;
  cvtColor := sample_cvtColor;
  GaussianBlur a ksize sigma := Ok a;
  putText := sample_putText
|}.

(** The text overlay of [main]'s pipeline, on the stand-in library. *)
Definition overlay_cats (frames : loc) : M loc :=
  overlay_text (cv := sample_cv2) frames
    (VStr "Cats") (VTuple [30; 60]) (VTuple [255; 200; 200]).

(** ** Frames by value *)

(** The references [items] point to the arrays [v], one each, in order. *)
Definition frames_are (s : state) (items : list loc) (v : list ndarray)
  : Prop :=
  Forall2 (fun f a => heap s !! f = Some (OArr a)) items v.

(** The expression of the comprehensions on lines 55 and 64, [F] being the
    library call made on the frame. *)
Definition convert_frame (F : ndarray -> result ndarray) (f : loc) : M loc :=
  a <- get_array f;;
  g <- lift (F a);;
  alloc (OArr g).

(** What line 60 makes of one frame. *)
Definition three_channel `{cv : Cv2} (a g : ndarray) : Prop :=
  if (length (shape a) =? 2)%nat
  then cvtColor a COLOR_GRAY2BGR = Ok g
  else g = a.

(** ** Steps that do not draw *)

(** A step whose function is one of the six filters other than
    [overlay_text]. *)
Definition non_drawing `{cv : Cv2} (st : step) : Prop :=
  step_func st = append_video_fn \/ step_func st = append_image_fn
  \/ step_func st = cut_fn \/ step_func st = to_grayscale_fn
  \/ step_func st = ensure_3channel_fn \/ step_func st = blur_frames_fn.

(** ** Keys and windows *)

(** The key that [waitKey] returned is ESC once masked with [0xFF]. *)
Definition is_esc (k : Z) : Prop := Z.land k 255 = 27.

(** The key, once masked, is none of ESC, SPACE and the two arrows. *)
Definition is_idle (k : Z) : Prop :=
  Z.land k 255 <> 27 /\ Z.land k 255 <> 32
  /\ Z.land k 255 <> 81 /\ Z.land k 255 <> 83.


(** What is left of a turn of the player's loop once the frame is on
    screen. *)
Definition after_show (s : state) (items : list loc) (keys : list Z)
    (current : Z) (playing : bool) : outcome player :=
  match keys with
  | [] => finished (Waiting current playing)
  | k :: rest =>
      if Z.land k 255 =? 27 then finished Stopped
      else let '(current, playing) :=
             tick (len items) (Z.land k 255) current playing in
           play_loop s items rest current playing
  end.

(** ** Steps on an empty sequence *)

(** On an empty sequence the step returns an empty sequence and changes no
    object. *)
Definition stays_empty (st : step) : Prop :=
  forall frames s,
    heap s !! frames = Some (OList []) ->
    exists r s',
      run_step st frames s = Ok (r, s')
      /\ heap s' !! r = Some (OList [])
      /\ heap s ⊆ heap s'.

(** * Properties *)

(** ** Runs of the monad *)

Lemma bind_Ok {A B} (m : M A) (k : A -> M B) s b s' :
  bind m k s = Ok (b, s') <->
  exists a s1, m s = Ok (a, s1) /\ k a s1 = Ok (b, s').
Proof.
  unfold bind. split.
  - destruct (m s) as [[a s1]|e]; [eauto | discriminate].
  - intros (a & s1 & -> & Hk). exact Hk.
Qed.

Lemma bind_run {A B} (m : M A) (k : A -> M B) s a s1 :
  m s = Ok (a, s1) -> bind m k s = k a s1.
Proof. unfold bind. intros ->. reflexivity. Qed.

Lemma bind_Raise {A B} (m : M A) (k : A -> M B) s e :
  m s = Raise e -> bind m k s = Raise e.
Proof. unfold bind. intros ->. reflexivity. Qed.

Lemma ret_Ok {A} (a b : A) s s' : ret a s = Ok (b, s') <-> b = a /\ s' = s.
Proof. unfold ret. split; [intros [= <- <-] | intros [-> ->]]; auto. Qed.

Lemma print_Ok ln s u s' :
  print ln s = Ok (u, s') <->
  formats ln = true /\ s' = State (heap s) (stdout s ++ [ln]).
Proof.
  unfold print. destruct u. destruct (formats ln); split.
  - intros [= <-]. auto.
  - intros [_ ->]. reflexivity.
  - discriminate.
  - intros [? _]. discriminate.
Qed.

Lemma print_run ln s :
  formats ln = true -> print ln s = Ok (tt, State (heap s) (stdout s ++ [ln])).
Proof. unfold print. intros ->. reflexivity. Qed.

Lemma alloc_Ok o s l s' :
  alloc o s = Ok (l, s') <->
  l = fresh (dom (heap s)) /\ s' = State (<[l := o]> (heap s)) (stdout s).
Proof.
  unfold alloc. split; [intros [= <- <-] | intros [-> ->]]; auto.
Qed.

Lemma get_list_Ok l s items s' :
  get_list l s = Ok (items, s') <->
  heap s !! l = Some (OList items) /\ s' = s.
Proof.
  unfold get_list. split.
  - destruct (heap s !! l) as [[it|a]|]; try discriminate.
    intros [= <- <-]; auto.
  - intros [-> ->]. reflexivity.
Qed.

Lemma get_array_Ok l s a s' :
  get_array l s = Ok (a, s') <-> heap s !! l = Some (OArr a) /\ s' = s.
Proof.
  unfold get_array. split.
  - destruct (heap s !! l) as [[it|a0]|]; try discriminate.
    intros [= <- <-]; auto.
  - intros [-> ->]. reflexivity.
Qed.

Lemma set_array_Ok l a s u s' :
  set_array l a s = Ok (u, s') <->
  (exists a0, heap s !! l = Some (OArr a0)) /\
  s' = State (<[l := OArr a]> (heap s)) (stdout s).
Proof.
  unfold set_array. destruct u. split.
  - destruct (heap s !! l) as [[it|a0]|]; try discriminate.
    intros [= <-]; eauto.
  - intros [[a0 ->] ->]. reflexivity.
Qed.

Lemma lift_Ok {A} (r : result A) s a s' :
  lift r s = Ok (a, s') <-> r = Ok a /\ s' = s.
Proof.
  unfold lift. split.
  - destruct r; [intros [= <- <-]; auto | discriminate].
  - intros [-> ->]. reflexivity.
Qed.

(** Taking a successful run apart, statement by statement. *)
Ltac run_inv :=
  repeat match goal with
    | H : bind _ _ _ = Ok (_, _) |- _ =>
        apply bind_Ok in H; destruct H as (? & ? & ? & H)
    | H : ret _ _ = Ok (_, _) |- _ => apply ret_Ok in H; destruct H; subst
    | H : print _ _ = Ok (_, _) |- _ =>
        apply print_Ok in H; destruct H as [? ?]; subst
    | H : alloc _ _ = Ok (_, _) |- _ => apply alloc_Ok in H; destruct H; subst
    | H : get_list _ _ = Ok (_, _) |- _ =>
        apply get_list_Ok in H; destruct H; subst
    | H : get_array _ _ = Ok (_, _) |- _ =>
        apply get_array_Ok in H; destruct H; subst
    | H : set_array _ _ _ = Ok (_, _) |- _ =>
        apply set_array_Ok in H; destruct H as [[? ?] ?]; subst
    | H : lift _ _ = Ok (_, _) |- _ => apply lift_Ok in H; destruct H; subst
    end.

(** ** The store only grows under allocation *)

Lemma fresh_unused (h : gmap loc obj) : h !! fresh (dom h) = None.
Proof. apply not_elem_of_dom. apply is_fresh. Qed.

Lemma alloc_extends (h : gmap loc obj) o : h ⊆ <[fresh (dom h) := o]> h.
Proof. apply insert_subseteq. apply fresh_unused. Qed.

Lemma grows_ret {A} (a : A) : grows (ret a).
Proof. intros s b s' H. run_inv. reflexivity. Qed.

Lemma grows_bind {A B} (m : M A) (k : A -> M B) :
  grows m -> (forall a, grows (k a)) -> grows (bind m k).
Proof.
  intros Hm Hk s b s' H. run_inv.
  etrans; [eapply Hm | eapply Hk]; eassumption.
Qed.

Lemma grows_alloc o : grows (alloc o).
Proof. intros s l s' H. run_inv. simpl. apply alloc_extends. Qed.

Lemma grows_print ln : grows (print ln).
Proof. intros s u s' H. run_inv. reflexivity. Qed.

Lemma grows_get_list l : grows (get_list l).
Proof. intros s u s' H. run_inv. reflexivity. Qed.

Lemma grows_get_array l : grows (get_array l).
Proof. intros s u s' H. run_inv. reflexivity. Qed.

Lemma grows_lift {A} (r : result A) : grows (lift r).
Proof. intros s u s' H. run_inv. reflexivity. Qed.

Lemma grows_assert c msg : grows (assert c msg).
Proof.
  unfold assert. destruct c; [apply grows_ret | intros s u s' H; discriminate].
Qed.

Lemma grows_for_each {A B} (body : A -> M B) xs :
  (forall x, grows (body x)) -> grows (for_each body xs).
Proof.
  intros Hb. induction xs as [|x xs IH]; simpl.
  - apply grows_ret.
  - apply grows_bind; [apply Hb | intros y].
    apply grows_bind; [apply IH | intros ys; apply grows_ret].
Qed.

Create HintDb grows.
#[export] Hint Resolve grows_ret grows_alloc grows_print grows_get_list
  grows_get_array grows_lift grows_assert : grows.

Ltac grows_tac :=
  repeat first
    [ apply grows_bind; [| intro]
    | apply grows_for_each; intro
    | solve [auto with grows] ].

(** ** Slices *)

Lemma slice_prefix {A} (xs : list A) (k : Z) :
  0 <= k -> slice xs None (Some k) = take (Z.to_nat k) xs.
Proof.
  intros Hk. unfold slice, slice_index.
  destruct (Z.ltb_spec k 0) as [?|_]; [lia|].
  rewrite Z.sub_0_r. simpl. rewrite drop_0.
  destruct (Z.le_gt_cases k (Z.of_nat (length xs))) as [Hle|Hgt].
  - rewrite Z.min_l by lia. reflexivity.
  - rewrite Z.min_r by lia. rewrite Nat2Z.id.
    rewrite !take_ge by lia. reflexivity.
Qed.

Lemma slice_suffix {A} (xs : list A) (e : Z) :
  slice xs (Some e) None =
  drop (Z.to_nat (slice_index (Z.of_nat (length xs)) e)) xs.
Proof.
  unfold slice. apply take_ge. rewrite length_drop.
  unfold slice_index. destruct (e <? 0); lia.
Qed.

Lemma kept_within {A} (items : list A) (start count : Z) :
  0 <= start <= len items -> 0 <= count ->
  kept items start count =
  take (Z.to_nat (Z.max 0 (len items - start - count))) items
  ++ drop (Z.to_nat (len items - start)) items.
Proof.
  intros Hs Hc. unfold kept.
  rewrite slice_prefix by lia. rewrite slice_suffix.
  unfold slice_index, len in *.
  destruct (Z.ltb_spec (Z.of_nat (length items) - start) 0); [lia|].
  rewrite Z.min_l by lia. reflexivity.
Qed.

Lemma kept_beyond {A} (items : list A) (start count : Z) :
  len items < start -> 0 <= count ->
  kept items start count =
  drop (Z.to_nat (Z.max 0 (2 * len items - start))) items.
Proof.
  intros Hs Hc. unfold kept.
  rewrite slice_prefix by lia. rewrite slice_suffix.
  unfold slice_index, len in *.
  rewrite Z.max_l by lia. simpl.
  destruct (Z.ltb_spec (Z.of_nat (length items) - start) 0); [|lia].
  do 2 f_equal. lia.
Qed.

Lemma kept_length_within {A} (items : list A) (start count : Z) :
  0 <= start <= len items -> 0 <= count ->
  len (kept items start count) = spec_cut_length (len items) start count.
Proof.
  intros Hs Hc. rewrite kept_within by assumption.
  unfold spec_cut_length, len in *.
  rewrite length_app, length_take, length_drop. lia.
Qed.

Lemma kept_length_beyond {A} (items : list A) (start count : Z) :
  len items < start -> 0 <= count ->
  len (kept items start count) = Z.min (len items) (start - len items).
Proof.
  intros Hs Hc. rewrite kept_beyond by assumption.
  unfold len in *. rewrite length_drop. lia.
Qed.

(** ** Runs of [cut] *)

Lemma assert_true msg s : assert true msg s = Ok (tt, s).
Proof. reflexivity. Qed.

Lemma str_limit_eq : str_limit = 10 ^ max_str_digits.
Proof. vm_compute. reflexivity. Qed.

Lemma fits_small z : 0 <= z < str_limit -> fits z = true.
Proof. intros Hz. unfold fits. apply Z.ltb_lt. lia. Qed.

Lemma fits_within_printable n z :
  0 <= z -> printable n z -> fits_within n z = true.
Proof.
  intros Hz [Hlt|Hle]; unfold fits_within, fits; apply orb_true_iff.
  - left. apply Z.ltb_lt. lia.
  - right. apply Z.leb_le. lia.
Qed.

(** The line that [cut] prints can be built when [start] and [count] can be
    printed: the two indices are then within the limit as well. *)
Lemma cut_line_formats n start count :
  0 <= n -> 0 <= start -> 0 <= count ->
  printable n start -> printable n count ->
  formats (CutFrames count start (Z.max 0 (n - start - count)) (n - start))
  = true.
Proof.
  intros Hn Hs Hc Hps Hpc. unfold formats.
  replace (start + (n - start)) with n by lia. cbv zeta.
  rewrite !andb_true_iff. repeat split.
  - apply fits_within_printable; assumption.
  - apply fits_within_printable; assumption.
  - apply fits_within_printable; [lia | right; lia].
  - unfold fits_within, fits. apply orb_true_iff.
    destruct (Z.le_gt_cases start n) as [Hle|Hgt].
    + right. apply Z.leb_le. lia.
    + left. apply Z.ltb_lt. destruct Hps as [Hlt|Hle]; lia.
Qed.

Lemma cut_run s frames items start count :
  heap s !! frames = Some (OList items) ->
  0 <= start -> 0 <= count ->
  printable (len items) start -> printable (len items) count ->
  let r := fresh (dom (heap s)) in
  cut frames start count s =
  Ok (r, State (<[r := OList (kept items start count)]> (heap s))
               (stdout s ++ [CutFrames count start
                               (Z.max 0 (len items - start - count))
                               (len items - start)])).
Proof.
  intros Hl Hs Hc Hps Hpc r. unfold cut.
  replace ((0 <=? start) && (0 <=? count)) with true
    by (symmetry; apply andb_true_iff; split; apply Z.leb_le; assumption).
  rewrite (bind_run _ _ _ _ _ (assert_true _ s)).
  rewrite (bind_run _ _ s items s) by (apply get_list_Ok; auto).
  cbv zeta.
  rewrite (bind_run _ _ s r
             (State (<[r := OList (kept items start count)]> (heap s))
                    (stdout s))) by reflexivity.
  rewrite (bind_run _ _ _ _ _
             (print_run _ _
                (cut_line_formats (len items) start count
                   ltac:(unfold len; lia) Hs Hc Hps Hpc))).
  reflexivity.
Qed.

(** A returning call of [cut], taken apart. *)
Lemma cut_Ok s frames start count r s' :
  cut frames start count s = Ok (r, s') ->
  exists items,
    heap s !! frames = Some (OList items)
    /\ 0 <= start /\ 0 <= count
    /\ r = fresh (dom (heap s))
    /\ s' = State (<[r := OList (kept items start count)]> (heap s))
                  (stdout s ++ [CutFrames count start
                                  (Z.max 0 (len items - start - count))
                                  (len items - start)]).
Proof.
  unfold cut, assert. intros H.
  destruct ((0 <=? start) && (0 <=? count)) eqn:Hb; [|discriminate].
  apply andb_true_iff in Hb. destruct Hb as [Hs Hc].
  apply Z.leb_le in Hs, Hc.
  run_inv. eexists. repeat split; eauto.
Qed.

(** Beyond the limit the f-string of line 49 cannot be built. *)
Lemma cut_raises_digits s frames items start count :
  heap s !! frames = Some (OList items) ->
  0 <= start -> 0 <= count ->
  (str_limit <= start /\ len items < start)
  \/ (str_limit <= count /\ len items < count) ->
  cut frames start count s = Raise DigitsValueError.
Proof.
  intros Hl Hs Hc Hbig. unfold cut.
  replace ((0 <=? start) && (0 <=? count)) with true
    by (symmetry; apply andb_true_iff; split; apply Z.leb_le; assumption).
  rewrite (bind_run _ _ _ _ _ (assert_true _ s)).
  rewrite (bind_run _ _ s items s) by (apply get_list_Ok; auto).
  cbv zeta.
  rewrite (bind_run _ _ s (fresh (dom (heap s)))
             (State (<[fresh (dom (heap s)) := OList (kept items start count)]>
                       (heap s)) (stdout s))) by reflexivity.
  apply bind_Raise. unfold print.
  replace (formats (CutFrames count start
                      (Z.max 0 (len items - start - count))
                      (len items - start))) with false; [reflexivity|].
  symmetry. unfold formats.
  replace (start + (len items - start)) with (len items) by lia. cbv zeta.
  unfold fits_within, fits.
  destruct Hbig as [[H1 H2]|[H1 H2]].
  - replace (Z.abs start <? str_limit) with false
      by (symmetry; apply Z.ltb_ge; lia).
    replace (Z.abs start <=? len items) with false
      by (symmetry; apply Z.leb_gt; lia).
    simpl. rewrite andb_false_r. reflexivity.
  - replace (Z.abs count <? str_limit) with false
      by (symmetry; apply Z.ltb_ge; lia).
    replace (Z.abs count <=? len items) with false
      by (symmetry; apply Z.leb_gt; lia).
    reflexivity.
Qed.

Lemma array_at_alloc_list h out l items f :
  h !! l = None ->
  array_at (State (<[l := OList items]> h) out) f = array_at (State h out) f.
Proof.
  intros Hl. unfold array_at. simpl.
  destruct (decide (l = f)) as [->|Hne].
  - rewrite lookup_insert_eq, Hl. reflexivity.
  - rewrite lookup_insert_ne by assumption. reflexivity.
Qed.

Lemma mapM_array_at_ext s s' (items : list loc) :
  (forall f, f ∈ items -> array_at s' f = array_at s f) ->
  mapM (array_at s') items = mapM (array_at s) items.
Proof.
  induction items as [|f items IH]; intros H; simpl; [reflexivity|].
  rewrite H by apply list_elem_of_here.
  rewrite IH; [reflexivity|].
  intros g Hg. apply H. apply list_elem_of_further. exact Hg.
Qed.

Lemma array_at_grows s s' f a :
  heap s ⊆ heap s' -> array_at s f = Some a -> array_at s' f = Some a.
Proof.
  unfold array_at. intros Hsub H.
  destruct (heap s !! f) as [[it|a0]|] eqn:E; try discriminate.
  rewrite (lookup_weaken _ _ _ _ E Hsub). exact H.
Qed.

(** ** Claims about [cut] *)

(** C1.  The length formula of the specification clamps the end index; the
    code does not.  On three frames, [cut(s, 4, 0)] computes [end_idx = -1],
    returns [s[:0] + s[-1:]], the last frame alone, and so a sequence of
    length 1 where the formula gives 3. *)
Lemma cut_length_unclamped :
  run_value (fr <- new_sequence (map tagged (seq 0 3));; cut fr 4 0)
  = Some [tagged 2]
  /\ spec_cut_length 3 4 0 = 3.
Proof. split; vm_compute; reflexivity. Qed.

(** C2, as stated: the survivors of [cut(start=300, count=50)] on 500 tagged
    frames are not the frames tagged 0..149 and 450..499. *)
Lemma cut_500_not_450_onwards :
  run_value (fr <- new_sequence (map tagged (seq 0 500));; cut fr 300 50)
  <> Some (map tagged (seq 0 150 ++ seq 450 50)).
Proof.
  intros H. apply (f_equal (option_map (@length ndarray))) in H.
  vm_compute in H. discriminate H.
Qed.

(** C2, amended.  On 500 frames tagged by original index,
    [cut(start=300, count=50)] removes the window [150:200): it reports that
    window, leaves 450 frames, and the survivors are the frames tagged 0..149
    and 200..499. *)
Lemma cut_500_scenario :
  let run := (fr <- new_sequence (map tagged (seq 0 500));; cut fr 300 50) in
  run_value run = Some (map tagged (seq 0 150 ++ seq 200 300))
  /\ length (seq 0 150 ++ seq 200 300) = 450%nat
  /\ match run empty_state with
     | Ok (_, s) => stdout s = [CutFrames 50 300 150 200]
     | Raise _ => False
     end.
Proof. split; [|split]; vm_compute; reflexivity. Qed.

(** C3, as stated: with [start = 10 ** 4300] and [count = 0], both
    non-negative, [cut] raises: the slices are taken, and then the f-string
    of line 49 cannot turn [start] into a string. *)
Lemma cut_raises_on_huge_start :
  heap three_frames !! 4%positive = Some (OList [1; 2; 3]%positive)
  /\ 0 <= 10 ^ 4300
  /\ cut 4%positive (10 ^ 4300) 0 three_frames = Raise DigitsValueError.
Proof.
  split; [reflexivity|]. split.
  - apply Z.leb_le. vm_compute. reflexivity.
  - vm_compute. reflexivity.
Qed.

(** C3, amended.  With non-negative [start] and [count] of at most 4300
    digits, [cut] returns for every list of frames, however large the two
    are against its length. *)
Lemma cut_never_raises s frames items start count :
  heap s !! frames = Some (OList items) ->
  0 <= start < str_limit -> 0 <= count < str_limit ->
  exists r s', cut frames start count s = Ok (r, s').
Proof.
  intros Hl [Hs Hs'] [Hc Hc']. eexists _, _.
  apply (cut_run s frames items); try assumption; left; assumption.
Qed.

Lemma cut_never_raises_witness :
  exists r s', cut 4%positive 1000 2000 three_frames = Ok (r, s').
Proof.
  apply (cut_never_raises three_frames 4%positive [1; 2; 3]%positive);
    [reflexivity | split; [lia | reflexivity] | split; [lia | reflexivity]].
Defined.

(** C4.  A negative [start] or [count] fails the assertion on line 45: the
    call raises and no sequence is returned. *)
Lemma cut_rejects_negative s frames start count :
  start < 0 \/ count < 0 ->
  cut frames start count s
  = Raise (AssertionError "cut() indices must be non-negative").
Proof.
  intros H. unfold cut.
  replace ((0 <=? start) && (0 <=? count)) with false; [reflexivity|].
  symmetry. apply andb_false_iff.
  destruct H; [left | right]; apply Z.leb_gt; assumption.
Qed.

Lemma cut_rejects_negative_witness :
  cut 4%positive (-1) 2 three_frames
  = Raise (AssertionError "cut() indices must be non-negative").
Proof.
  apply (cut_rejects_negative three_frames 4%positive (-1) 2). left. lia.
Defined.

(** C9.  [cut(s, 0, 0)] returns a list holding the frames of [s], equal to
    [s] by value, and [s] itself is as before. *)
Lemma cut_zero_zero s frames items :
  heap s !! frames = Some (OList items) ->
  exists r s',
    cut frames 0 0 s = Ok (r, s')
    /\ heap s' !! r = Some (OList items)
    /\ seq_value s' r = seq_value s frames
    /\ heap s' !! frames = Some (OList items)
    /\ seq_value s' frames = seq_value s frames.
Proof.
  intros Hl.
  pose proof (cut_run s frames items 0 0 Hl (Z.le_refl 0) (Z.le_refl 0)
                (or_introl eq_refl) (or_introl eq_refl)) as Hrun.
  cbv zeta in Hrun. set (r := fresh (dom (heap s))) in *.
  assert (Hk : kept items 0 0 = items).
  { rewrite kept_within by (unfold len; lia).
    unfold len. rewrite !Z.sub_0_r, Z.max_r by lia.
    rewrite Nat2Z.id, take_ge, drop_ge by lia. apply app_nil_r. }
  rewrite Hk in Hrun.
  assert (Hr : heap s !! r = None) by apply fresh_unused.
  assert (Hne : r <> frames) by (intros ->; congruence).
  eexists _, _. split; [exact Hrun|]. simpl.
  assert (Hval : forall l : list loc,
            mapM (array_at (State (<[r := OList items]> (heap s))
                                  (stdout s ++ [CutFrames 0 0
                                     (Z.max 0 (len items - 0 - 0))
                                     (len items - 0)]))) l
            = mapM (array_at s) l).
  { intros l. apply mapM_array_at_ext. intros f _.
    rewrite array_at_alloc_list by assumption.
    unfold array_at. reflexivity. }
  unfold seq_value. simpl.
  rewrite lookup_insert_eq, lookup_insert_ne, Hl by assumption.
  repeat split; auto.
Qed.

Lemma cut_zero_zero_witness :
  exists r s',
    cut 4%positive 0 0 three_frames = Ok (r, s')
    /\ heap s' !! r = Some (OList [1; 2; 3]%positive)
    /\ seq_value s' r = seq_value three_frames 4%positive
    /\ heap s' !! 4%positive = Some (OList [1; 2; 3]%positive)
    /\ seq_value s' 4%positive = seq_value three_frames 4%positive.
Proof.
  apply (cut_zero_zero three_frames 4%positive [1; 2; 3]%positive).
  reflexivity.
Defined.

(** C10, as stated: on three frames with [start = 4], so that
    [n < start <= 2n], and [count = 10 ** 4300], [cut] does not return the
    last frame: it raises, because the f-string of line 49 cannot turn
    [count] into a string. *)
Lemma cut_beyond_length_huge_count :
  len [1; 2; 3]%positive < 4 <= 2 * len [1; 2; 3]%positive
  /\ 0 <= 10 ^ 4300
  /\ cut 4%positive 4 (10 ^ 4300) three_frames = Raise DigitsValueError.
Proof.
  split; [unfold len; simpl; lia|]. split.
  - apply Z.leb_le. vm_compute. reflexivity.
  - vm_compute. reflexivity.
Qed.

(** C10, amended.  With [n = len(s)], [start] of at most 4300 digits and
    [count >= 0] of at most 4300 digits: for [n < start <= 2n] the negative
    [end_idx] selects the last [start - n] frames of [s], whatever [count]
    is, and for [start > 2n] the whole of [s] is returned. *)
Lemma cut_start_beyond_length s frames items start count :
  heap s !! frames = Some (OList items) ->
  start < str_limit ->
  0 <= count < str_limit ->
  (len items < start <= 2 * len items ->
   exists r s',
     cut frames start count s = Ok (r, s')
     /\ heap s' !! r
        = Some (OList (drop (length items - Z.to_nat (start - len items))
                            items))
     /\ len (drop (length items - Z.to_nat (start - len items)) items)
        = start - len items)
  /\ (2 * len items < start ->
      exists r s',
        cut frames start count s = Ok (r, s')
        /\ heap s' !! r = Some (OList items)).
Proof.
  intros Hl Hlim [Hc Hc'].
  assert (Hrun : len items < start ->
            exists r s', cut frames start count s = Ok (r, s')
              /\ heap s' !! r = Some (OList (kept items start count))).
  { intros Hs. eexists _, _. split.
    - apply (cut_run s frames items);
        [assumption | unfold len in *; lia | assumption
        | left; assumption | left; assumption].
    - simpl. apply lookup_insert_eq. }
  split; intros Hs.
  - destruct Hrun as (r & s' & Hcut & Hr); [lia|].
    exists r, s'. split; [exact Hcut|].
    rewrite kept_beyond in Hr by (assumption || lia).
    replace (Z.to_nat (Z.max 0 (2 * len items - start)))
      with (length items - Z.to_nat (start - len items))%nat in Hr
      by (unfold len in *; lia).
    split; [exact Hr|].
    unfold len in *. rewrite length_drop. lia.
  - destruct Hrun as (r & s' & Hcut & Hr); [unfold len in *; lia|].
    exists r, s'. split; [exact Hcut|].
    rewrite kept_beyond in Hr by (assumption || (unfold len in *; lia)).
    rewrite Z.max_l in Hr by lia. exact Hr.
Qed.

Lemma cut_start_beyond_length_witness :
  exists r s',
    cut 4%positive 4 7 three_frames = Ok (r, s')
    /\ heap s' !! r
       = Some (OList (drop (length [1; 2; 3]%positive
                            - Z.to_nat (4 - len [1; 2; 3]%positive))
                           [1; 2; 3]%positive))
    /\ len (drop (length [1; 2; 3]%positive
                  - Z.to_nat (4 - len [1; 2; 3]%positive))
                 [1; 2; 3]%positive)
       = 4 - len [1; 2; 3]%positive.
Proof.
  refine (proj1 (cut_start_beyond_length three_frames 4%positive
                  [1; 2; 3]%positive 4 7 _ _ _) _).
  - reflexivity.
  - reflexivity.
  - split; [lia | reflexivity].
  - unfold len. simpl. lia.
Defined.

(** ** The pipeline engine *)

Lemma bind_assoc {A B C} (m : M A) (f : A -> M B) (g : B -> M C) s :
  bind (bind m f) g s = bind m (fun x => bind (f x) g) s.
Proof. unfold bind. destruct (m s) as [[a s1]|e]; reflexivity. Qed.

Lemma bind_ret_l {A B} (a : A) (k : A -> M B) s : bind (ret a) k s = k a s.
Proof. reflexivity. Qed.

Lemma bind_ret_r {A} (m : M A) s : bind m ret s = m s.
Proof. unfold bind, ret. destruct (m s) as [[a s1]|e]; reflexivity. Qed.

Section Engine.
Context `{cv : Cv2}.

Lemma apply_pipeline_nil frames s : apply_pipeline frames [] s = Ok (frames, s).
Proof. reflexivity. Qed.

Lemma apply_pipeline_cons st rest frames s :
  apply_pipeline frames (st :: rest) s
  = (x <- run_step st frames;; apply_pipeline x rest) s.
Proof. unfold run_step. rewrite bind_assoc. reflexivity. Qed.

Lemma apply_pipeline_app p q frames s :
  apply_pipeline frames (p ++ q) s
  = (x <- apply_pipeline frames p;; apply_pipeline x q) s.
Proof.
  revert frames s. induction p as [|st p IH]; intros frames s.
  - reflexivity.
  - rewrite <- app_comm_cons, apply_pipeline_cons.
    unfold bind at 2. rewrite apply_pipeline_cons. unfold bind.
    destruct (run_step st frames s) as [[x s1]|e]; [|reflexivity].
    rewrite IH. reflexivity.
Qed.

Lemma apply_pipeline_two A B frames s :
  apply_pipeline frames [A; B] s
  = (x <- run_step A frames;; run_step B x) s.
Proof.
  rewrite apply_pipeline_cons. unfold bind at 1 2.
  destruct (run_step A frames s) as [[x s1]|e]; [|reflexivity].
  rewrite apply_pipeline_cons. apply bind_ret_r.
Qed.

(** A step that raises ends the run: the steps after it are not applied. *)
Lemma apply_pipeline_raise st rest frames s e :
  run_step st frames s = Raise e ->
  apply_pipeline frames (st :: rest) s = Raise e.
Proof. intros H. rewrite apply_pipeline_cons. apply bind_Raise. exact H. Qed.

(** ** Sources that cannot be opened *)

Lemma append_video_unavailable frames video_path s :
  VideoCapture (os_path_join "input" video_path) = None ->
  append_video frames video_path s
  = Ok (frames, State (heap s)
                      (stdout s
                       ++ [ErrCannotOpen (os_path_join "input" video_path)])).
Proof. unfold append_video. intros ->. reflexivity. Qed.

Lemma append_image_unavailable frames image_path s :
  imread (os_path_join "input" image_path) = None ->
  append_image frames image_path s
  = Ok (frames, State (heap s) (stdout s ++ [ErrCannotOpenImage image_path])).
Proof. unfold append_image. intros ->. reflexivity. Qed.

End Engine.

(** ** What a filter does to the list and the frames it is given *)

Lemma grows_input_unchanged s s' frames :
  heap s ⊆ heap s' -> input_unchanged s s' frames.
Proof.
  intros Hsub items Hl. split.
  - exact (lookup_weaken _ _ _ _ Hl Hsub).
  - intros f a _ Hf. exact (lookup_weaken _ _ _ _ Hf Hsub).
Qed.

Lemma alloc_list_new s s1 out r s' :
  heap s ⊆ heap s1 ->
  alloc (OList out) s1 = Ok (r, s') ->
  heap s ⊆ heap s' /\ new_list s s' r.
Proof.
  intros Hsub H. run_inv. simpl.
  assert (Hr : heap s1 !! fresh (dom (heap s1)) = None) by apply fresh_unused.
  split; [|split].
  - etrans; [exact Hsub | apply alloc_extends].
  - exact (lookup_weaken_None _ _ _ Hr Hsub).
  - eexists. apply lookup_insert_eq.
Qed.

(** A filter that only reads and allocates before it allocates the list it
    returns is pure. *)
Lemma pure_build {A} (prefix : loc -> M A) (out : loc -> A -> list loc) :
  (forall frames, grows (prefix frames)) ->
  pure (fun frames => x <- prefix frames;; alloc (OList (out frames x))).
Proof.
  intros Hg. split; intros s frames r s' H;
    apply bind_Ok in H; destruct H as (x & s1 & Hp & Ha);
    destruct (alloc_list_new s _ _ _ _ (Hg _ _ _ _ Hp) Ha) as [Hsub Hnew].
  - apply grows_input_unchanged. exact Hsub.
  - exact Hnew.
Qed.

Lemma pure_ext (f g : loc -> M loc) :
  (forall frames s, f frames s = g frames s) -> pure f -> pure g.
Proof.
  intros Hfg [Hk Hn]. split; intros s frames r s' H;
    rewrite <- Hfg in H; eauto.
Qed.

Lemma cut_pure start count : pure (fun frames => cut frames start count).
Proof.
  split; intros s frames r s' H; unfold cut, assert in H;
    destruct ((0 <=? start) && (0 <=? count)); try discriminate;
    run_inv; simpl.
  - apply grows_input_unchanged. simpl. apply alloc_extends.
  - split; [apply fresh_unused | eexists; apply lookup_insert_eq].
Qed.

Section FilterEffects.
Context `{cv : Cv2}.

Lemma grows_read_frames cap new_frames : grows (read_frames cap new_frames).
Proof.
  revert new_frames. induction cap as [|frame cap IH]; intros new_frames; simpl.
  - apply grows_ret.
  - apply grows_bind; [apply grows_alloc | intros f; apply IH].
Qed.

Lemma to_grayscale_pure : pure to_grayscale.
Proof.
  eapply pure_ext;
    [| apply (pure_build
                (fun frames =>
                   items <- get_list frames;;
                   for_each (fun f =>
                               a <- get_array f;;
                               g <- lift (cvtColor a COLOR_BGR2GRAY);;
                               alloc (OArr g)) items)
                (fun _ out => out)); intros frames; grows_tac].
  intros frames s. unfold to_grayscale. apply bind_assoc.
Qed.

Lemma ensure_3channel_pure : pure ensure_3channel.
Proof.
  eapply pure_ext;
    [| apply (pure_build
                (fun frames =>
                   items <- get_list frames;;
                   for_each (fun f =>
                               a <- get_array f;;
                               if (length (shape a) =? 2)%nat
                               then g <- lift (cvtColor a COLOR_GRAY2BGR);;
                                    alloc (OArr g)
                               else ret f) items)
                (fun _ out => out)); intros frames; grows_tac].
  - intros frames s. unfold ensure_3channel. apply bind_assoc.
  - match goal with
    | |- grows (if ?c then _ else _) => destruct c; grows_tac
    end.
Qed.

Lemma blur_frames_pure ksize : pure (fun frames => blur_frames frames ksize).
Proof.
  eapply pure_ext;
    [| apply (pure_build
                (fun frames =>
                   items <- get_list frames;;
                   for_each (fun f =>
                               a <- get_array f;;
                               g <- lift (GaussianBlur a ksize 0);;
                               alloc (OArr g)) items)
                (fun _ out => out)); intros frames; grows_tac].
  intros frames s. unfold blur_frames. apply bind_assoc.
Qed.

Lemma append_video_grows frames video_path : grows (append_video frames video_path).
Proof.
  unfold append_video.
  destruct (VideoCapture (os_path_join "input" video_path)); grows_tac.
  apply grows_read_frames.
Qed.

Lemma append_image_grows frames image_path : grows (append_image frames image_path).
Proof.
  unfold append_image.
  destruct (imread (os_path_join "input" image_path)); grows_tac.
Qed.

Lemma append_video_new frames video_path cap s r s' :
  VideoCapture (os_path_join "input" video_path) = Some cap ->
  append_video frames video_path s = Ok (r, s') -> new_list s s' r.
Proof.
  unfold append_video. intros -> H. run_inv.
  match goal with
  | Hr : read_frames _ _ _ = Ok _ |- _ =>
      apply grows_read_frames in Hr; simpl in *
  end.
  split.
  - eapply lookup_weaken_None; [apply fresh_unused | eassumption].
  - eexists. apply lookup_insert_eq.
Qed.

Lemma append_image_new frames image_path pixels s r s' :
  imread (os_path_join "input" image_path) = Some pixels ->
  append_image frames image_path s = Ok (r, s') -> new_list s s' r.
Proof.
  unfold append_image. intros -> H. run_inv. simpl in *.
  split.
  - eapply lookup_weaken_None; [apply fresh_unused | apply alloc_extends].
  - eexists. apply lookup_insert_eq.
Qed.

End FilterEffects.

(** ** [overlay_text] draws in place *)

Section Overlay.
Context `{cv : Cv2}.
Variables text position color : value.

Lemma draw_Ok f s u s' :
  draw text position color f s = Ok (u, s') ->
  exists a a',
    heap s !! f = Some (OArr a)
    /\ putText a text position FONT_HERSHEY_SIMPLEX 1 color 2 = Ok a'
    /\ s' = State (<[f := OArr a']> (heap s)) (stdout s).
Proof. unfold draw. intros H. run_inv. eauto. Qed.

(** What the loop leaves behind: objects outside the list are untouched,
    list objects are untouched, and, when the list holds each frame once,
    every frame holds what [putText] made of it. *)
Lemma draw_loop items : forall s us s',
  for_each (draw text position color) items s = Ok (us, s') ->
  (forall l, l ∉ items -> heap s' !! l = heap s !! l)
  /\ (forall l its, heap s !! l = Some (OList its) ->
                    heap s' !! l = Some (OList its))
  /\ stdout s' = stdout s
  /\ (NoDup items -> forall f a, f ∈ items -> heap s !! f = Some (OArr a) ->
        exists a',
          putText a text position FONT_HERSHEY_SIMPLEX 1 color 2 = Ok a'
          /\ heap s' !! f = Some (OArr a')).
Proof.
  induction items as [|f items IH]; intros s us s' H; simpl in H; run_inv.
  - repeat split; auto. intros _ f a Hf. inversion Hf.
  - match goal with Hd : draw _ _ _ _ _ = Ok _ |- _ =>
      apply draw_Ok in Hd; destruct Hd as (a & a' & Hfa & Hput & ->) end.
    match goal with Hl : for_each _ _ _ = Ok _ |- _ =>
      destruct (IH _ _ _ Hl) as (Hout & Hlist & Hlog & Hin) end.
    simpl in *. split; [|split; [|split]].
    + intros l Hl. apply not_elem_of_cons in Hl as [Hne Hl].
      rewrite Hout by assumption. apply lookup_insert_ne. congruence.
    + intros l its Hl. apply Hlist.
      rewrite lookup_insert_ne; [assumption | congruence].
    + exact Hlog.
    + intros Hnd g b Hg Hgb. apply NoDup_cons in Hnd as [Hf Hnd].
      apply elem_of_cons in Hg as [-> | Hg].
      * exists a'. split; [congruence|].
        rewrite Hout by assumption. apply lookup_insert_eq.
      * apply (Hin Hnd g b Hg).
        rewrite lookup_insert_ne; [assumption | congruence].
Qed.

(** [overlay_text] returns the list it was given, which holds the same
    references as before; it prints nothing and touches no object outside
    the list; each frame of the list (held once) is overwritten with the
    outcome of [putText]. *)
Lemma overlay_text_in_place frames s r s' :
  overlay_text frames text position color s = Ok (r, s') ->
  r = frames
  /\ exists items,
       heap s !! frames = Some (OList items)
       /\ heap s' !! frames = Some (OList items)
       /\ stdout s' = stdout s
       /\ (forall l, l ∉ items -> heap s' !! l = heap s !! l)
       /\ (NoDup items -> forall f a, f ∈ items ->
             heap s !! f = Some (OArr a) ->
             exists a',
               putText a text position FONT_HERSHEY_SIMPLEX 1 color 2 = Ok a'
               /\ heap s' !! f = Some (OArr a')).
Proof.
  unfold overlay_text. intros H. run_inv.
  match goal with Hl : for_each _ _ _ = Ok _ |- _ =>
    destruct (draw_loop _ _ _ _ Hl) as (Hout & Hlist & Hlog & Hin) end.
  split; [reflexivity|]. eexists. repeat split; eauto.
Qed.

End Overlay.

(** ** [ensure_3channel] applied twice *)

Lemma multi_channel_grows s s' f :
  heap s ⊆ heap s' -> multi_channel s f -> multi_channel s' f.
Proof.
  intros Hsub (a & Ha & Hdim). exists a. split; [|exact Hdim].
  exact (lookup_weaken _ _ _ _ Ha Hsub).
Qed.

Lemma mapM_array_at_Some s items :
  Forall (multi_channel s) items -> exists v, mapM (array_at s) items = Some v.
Proof.
  induction 1 as [|f items (a & Ha & _) _ [v IH]]; simpl.
  - eexists. reflexivity.
  - assert (Hf : array_at s f = Some a)
      by (unfold array_at; rewrite Ha; reflexivity).
    rewrite Hf, IH. simpl. eexists. reflexivity.
Qed.

Section Idempotence.
Context `{cv : Cv2}.

Lemma ensure_3channel_unfold frames :
  ensure_3channel frames
  = (items <- get_list frames;;
     out <- for_each ensure_frame items;;
     alloc (OList out)).
Proof. reflexivity. Qed.

(** On a frame that is not two-dimensional the expression is the frame
    itself, and nothing is allocated. *)
Lemma ensure_frame_keep s f :
  multi_channel s f -> ensure_frame f s = Ok (f, s).
Proof.
  intros (a & Ha & Hdim). unfold ensure_frame.
  rewrite (bind_run _ _ s a s) by (apply get_array_Ok; auto).
  apply Nat.eqb_neq in Hdim. rewrite Hdim. reflexivity.
Qed.

Lemma ensure_loop_keep s items :
  Forall (multi_channel s) items ->
  for_each ensure_frame items s = Ok (items, s).
Proof.
  induction 1 as [|f items Hf _ IH]; simpl; [reflexivity|].
  rewrite (bind_run _ _ _ _ _ (ensure_frame_keep s f Hf)).
  rewrite (bind_run _ _ _ _ _ IH). reflexivity.
Qed.

(** OpenCV's GRAY2BGR conversion returns an array of shape (h, w, 3). *)
Hypothesis gray2bgr_shape : forall a b,
  cvtColor a COLOR_GRAY2BGR = Ok b -> length (shape b) <> 2%nat.

Lemma ensure_frame_result s f y s' :
  ensure_frame f s = Ok (y, s') ->
  heap s ⊆ heap s' /\ multi_channel s' y.
Proof.
  unfold ensure_frame. intros H.
  apply bind_Ok in H. destruct H as (a & s0 & Hget & H).
  apply get_array_Ok in Hget. destruct Hget as [Ha ->].
  destruct (length (shape a) =? 2)%nat eqn:Hdim.
  - run_inv. simpl. split; [apply alloc_extends|].
    eexists. split; [apply lookup_insert_eq|]. eapply gray2bgr_shape.
    eassumption.
  - run_inv. split; [reflexivity|].
    exists a. split; [exact Ha|]. apply Nat.eqb_neq. exact Hdim.
Qed.

Lemma ensure_loop_result items : forall s out s',
  for_each ensure_frame items s = Ok (out, s') ->
  heap s ⊆ heap s' /\ Forall (multi_channel s') out.
Proof.
  induction items as [|f items IH]; intros s out s' H; simpl in H.
  - run_inv. split; [reflexivity | constructor].
  - apply bind_Ok in H. destruct H as (y & s1 & Hy & H).
    apply bind_Ok in H. destruct H as (ys & s2 & Hys & H).
    run_inv.
    apply ensure_frame_result in Hy. destruct Hy as [Hsub1 Hmc].
    apply IH in Hys. destruct Hys as [Hsub2 Hall].
    split; [etrans; eassumption|].
    constructor; [|exact Hall].
    eapply multi_channel_grows; eassumption.
Qed.

Lemma ensure_3channel_Ok frames s r1 s1 :
  ensure_3channel frames s = Ok (r1, s1) ->
  exists out, heap s1 !! r1 = Some (OList out)
              /\ Forall (multi_channel s1) out.
Proof.
  rewrite ensure_3channel_unfold. intros H.
  apply bind_Ok in H. destruct H as (items & s0 & _ & H).
  apply bind_Ok in H. destruct H as (out & sm & Hloop & H).
  apply ensure_loop_result in Hloop. destruct Hloop as [_ Hall].
  run_inv. simpl. exists out. split; [apply lookup_insert_eq|].
  eapply Forall_impl; [exact Hall|]. intros f Hf.
  eapply multi_channel_grows; [|exact Hf]. simpl. apply alloc_extends.
Qed.

Lemma ensure_3channel_again s1 r1 out :
  heap s1 !! r1 = Some (OList out) ->
  Forall (multi_channel s1) out ->
  exists r2 s2 v,
    ensure_3channel r1 s1 = Ok (r2, s2)
    /\ seq_items s2 r2 = seq_items s1 r1
    /\ seq_value s1 r1 = Some v
    /\ seq_value s2 r2 = Some v.
Proof.
  intros Hr1 Hall.
  destruct (mapM_array_at_Some s1 out Hall) as [v Hv].
  exists (fresh (dom (heap s1))),
         (State (<[fresh (dom (heap s1)) := OList out]> (heap s1)) (stdout s1)),
         v.
  split; [|split; [|split]].
  - rewrite ensure_3channel_unfold.
    rewrite (bind_run _ _ s1 out s1) by (apply get_list_Ok; auto).
    rewrite (bind_run _ _ _ _ _ (ensure_loop_keep s1 out Hall)).
    reflexivity.
  - unfold seq_items. simpl. rewrite lookup_insert_eq, Hr1. reflexivity.
  - unfold seq_value. rewrite Hr1. exact Hv.
  - unfold seq_value. simpl. rewrite lookup_insert_eq. rewrite <- Hv.
    apply mapM_array_at_ext. intros f _.
    rewrite array_at_alloc_list by apply fresh_unused.
    unfold array_at. reflexivity.
Qed.

(** C7.  [ensure_3channel] leaves a frame that is not two-dimensional as it
    is, and applying it to its own result gives a sequence with the same
    frames: the second call returns a list of the very same arrays, equal by
    value to the result of the first.  When the first call raises, so does
    the composition, with the same exception. *)
Theorem ensure_3channel_idempotent frames s :
  (forall f, multi_channel s f -> ensure_frame f s = Ok (f, s))
  /\ match ensure_3channel frames s with
     | Ok (r1, s1) =>
         exists r2 s2 v,
           ensure_3channel r1 s1 = Ok (r2, s2)
           /\ seq_items s2 r2 = seq_items s1 r1
           /\ seq_value s1 r1 = Some v
           /\ seq_value s2 r2 = Some v
     | Raise e =>
         (x <- ensure_3channel frames;; ensure_3channel x) s = Raise e
     end.
Proof.
  split; [intros f; apply ensure_frame_keep|].
  destruct (ensure_3channel frames s) as [[r1 s1]|e] eqn:E.
  - destruct (ensure_3channel_Ok _ _ _ _ E) as (out & Hr1 & Hall).
    exact (ensure_3channel_again s1 r1 out Hr1 Hall).
  - apply bind_Raise. exact E.
Qed.

End Idempotence.

Lemma sample_gray2bgr_shape a b :
  cvtColor (Cv2 := sample_cv2) a COLOR_GRAY2BGR = Ok b ->
  length (shape b) <> 2%nat.
Proof.
  simpl. unfold sample_cvtColor.
  destruct (shape a) as [|h [|w [|c rest]]]; try discriminate.
  intros [= <-]. simpl. discriminate.
Qed.

Lemma ensure_3channel_idempotent_witness :
  (forall f, multi_channel mixed_frames f ->
             ensure_frame (cv := sample_cv2) f mixed_frames
             = Ok (f, mixed_frames))
  /\ match ensure_3channel (cv := sample_cv2) 4%positive mixed_frames with
     | Ok (r1, s1) =>
         exists r2 s2 v,
           ensure_3channel (cv := sample_cv2) r1 s1 = Ok (r2, s2)
           /\ seq_items s2 r2 = seq_items s1 r1
           /\ seq_value s1 r1 = Some v
           /\ seq_value s2 r2 = Some v
     | Raise e =>
         (x <- ensure_3channel (cv := sample_cv2) 4%positive;;
          ensure_3channel (cv := sample_cv2) x) mixed_frames = Raise e
     end.
Proof.
  exact (ensure_3channel_idempotent (cv := sample_cv2) sample_gray2bgr_shape
           4%positive mixed_frames).
Defined.

(** On that store the first call does return, with the grey frame turned
    into a three-channel one and the colour frames kept. *)
Example ensure_3channel_mixed :
  match ensure_3channel (cv := sample_cv2) 4%positive mixed_frames with
  | Ok (r1, s1) =>
      seq_value s1 r1
      = Some [sample_frame 1; sample_frame 2;
              NdArray [1; 1; 3]%nat [7; 7; 7]]
      /\ seq_items s1 r1 = Some [1; 2; 5]%positive
  | Raise _ => False
  end.
Proof. vm_compute. split; reflexivity. Qed.

(** ** Purity of the filters *)

Lemma overlay_cats_run :
  exists s',
    overlay_cats 4%positive three_frames = Ok (4%positive, s')
    /\ heap s' !! 1%positive = Some (OArr (NdArray [1; 1]%nat [255])).
Proof. eexists. split; vm_compute; reflexivity. Qed.

(** C6, as stated: [overlay_text] is not pure.  On three tagged frames it
    returns the list it was given, not a new one, and the first frame of
    that list no longer holds what it held. *)
Lemma overlay_text_not_pure :
  ~ pure overlay_cats /\ ~ keeps_input overlay_cats
  /\ ~ returns_new overlay_cats.
Proof.
  destruct overlay_cats_run as (s' & Hrun & Hfirst).
  assert (Hk : ~ keeps_input overlay_cats).
  { intros Hk.
    destruct (Hk _ _ _ _ Hrun [1; 2; 3]%positive) as [_ Hf]; [reflexivity|].
    specialize (Hf 1%positive (tagged 0)).
    rewrite Hfirst in Hf.
    assert (Hbad : Some (OArr (NdArray [1; 1]%nat [255]))
                   = Some (OArr (tagged 0))).
    { apply Hf; [apply list_elem_of_here | reflexivity]. }
    discriminate Hbad. }
  assert (Hn : ~ returns_new overlay_cats).
  { intros Hn. destruct (Hn _ _ _ _ Hrun) as [Hnone _].
    vm_compute in Hnone. discriminate Hnone. }
  split; [intros [_ Hn']; exact (Hn Hn') | split; assumption].
Qed.

(** C6, amended.  [cut], [to_grayscale], [ensure_3channel] and [blur_frames]
    leave the input list and its frames unchanged and return a new list; so
    do [append_video] and [append_image] when the source opens, and when it
    does not they return the input list itself, unchanged.  [overlay_text]
    returns the input list itself and overwrites each of its frames with the
    outcome of the drawing. *)
Theorem filters_effect `{cv : Cv2} :
  (forall start count, pure (fun frames => cut frames start count))
  /\ pure to_grayscale
  /\ pure ensure_3channel
  /\ (forall ksize, pure (fun frames => blur_frames frames ksize))
  /\ (forall video_path,
        keeps_input (fun frames => append_video frames video_path)
        /\ forall s frames r s',
             append_video frames video_path s = Ok (r, s') ->
             match VideoCapture (os_path_join "input" video_path) with
             | Some _ => new_list s s' r
             | None => r = frames /\ heap s' = heap s
             end)
  /\ (forall image_path,
        keeps_input (fun frames => append_image frames image_path)
        /\ forall s frames r s',
             append_image frames image_path s = Ok (r, s') ->
             match imread (os_path_join "input" image_path) with
             | Some _ => new_list s s' r
             | None => r = frames /\ heap s' = heap s
             end)
  /\ (forall text position color s frames r s',
        overlay_text frames text position color s = Ok (r, s') ->
        r = frames
        /\ exists items,
             heap s !! frames = Some (OList items)
             /\ heap s' !! frames = Some (OList items)
             /\ stdout s' = stdout s
             /\ (forall l, l ∉ items -> heap s' !! l = heap s !! l)
             /\ (NoDup items -> forall f a, f ∈ items ->
                   heap s !! f = Some (OArr a) ->
                   exists a',
                     putText a text position FONT_HERSHEY_SIMPLEX 1 color 2
                     = Ok a'
                     /\ heap s' !! f = Some (OArr a'))).
Proof.
  split; [exact cut_pure|].
  split; [exact to_grayscale_pure|].
  split; [exact ensure_3channel_pure|].
  split; [exact blur_frames_pure|].
  split; [|split].
  - intros video_path. split.
    + intros s frames r s' H. apply grows_input_unchanged.
      exact (append_video_grows _ _ _ _ _ H).
    + intros s frames r s' H.
      destruct (VideoCapture (os_path_join "input" video_path)) as [cap|] eqn:E.
      * exact (append_video_new _ _ _ _ _ _ E H).
      * rewrite (append_video_unavailable _ _ _ E) in H.
        injection H as <- <-. split; reflexivity.
  - intros image_path. split.
    + intros s frames r s' H. apply grows_input_unchanged.
      exact (append_image_grows _ _ _ _ _ H).
    + intros s frames r s' H.
      destruct (imread (os_path_join "input" image_path)) as [pixels|] eqn:E.
      * exact (append_image_new _ _ _ _ _ _ E H).
      * rewrite (append_image_unavailable _ _ _ E) in H.
        injection H as <- <-. split; reflexivity.
  - intros text position color s frames r s'.
    apply overlay_text_in_place.
Qed.

(** [to_grayscale] does return on that store, and there the theorem gives:
    input unchanged, new list returned. *)
Lemma filters_effect_witness :
  match to_grayscale (cv := sample_cv2) 3%positive colour_frames with
  | Ok (r, s') =>
      input_unchanged colour_frames s' 3%positive
      /\ new_list colour_frames s' r
      /\ seq_value s' r
         = Some [NdArray [1; 2]%nat [1; 0]; NdArray [1; 2]%nat [2; 0]]
  | Raise _ => False
  end.
Proof.
  pose proof (proj1 (proj2 (filters_effect (cv := sample_cv2)))) as [Hk Hn].
  destruct (to_grayscale 3%positive colour_frames) as [[r s']|e] eqn:E.
  - split; [exact (Hk _ _ _ _ E) | split; [exact (Hn _ _ _ _ E)|]].
    vm_compute in E. injection E as <- <-. vm_compute. reflexivity.
  - vm_compute in E. discriminate E.
Defined.

(** ** The engine applies the steps in the declared order *)

(** C5.  The engine returns the initial sequence for an empty step list; for
    steps [[A; B]] it hands the result of [A] on the initial sequence to [B];
    in general the steps of [p ++ q] are those of [p] followed by those of
    [q] on the result of [p]; a step that raises ends the run.  The order is
    observable: appending an image and then cutting one frame leaves no
    frame, cutting first and appending then leaves the image. *)
Theorem apply_pipeline_in_order :
  (forall frames s, apply_pipeline frames [] s = Ok (frames, s))
  /\ (forall A B frames s,
        apply_pipeline frames [A; B] s
        = (x <- run_step A frames;; run_step B x) s)
  /\ (forall p q frames s,
        apply_pipeline frames (p ++ q) s
        = (x <- apply_pipeline frames p;; apply_pipeline x q) s)
  /\ (forall st rest frames s e,
        run_step st frames s = Raise e ->
        apply_pipeline frames (st :: rest) s = Raise e)
  /\ (let A := Step (append_image_fn (cv := sample_cv2)) [VStr "huh.png"] in
      let B := Step cut_fn [VInt 0; VInt 1] in
      run_value (frames <- alloc (OList []);; apply_pipeline frames [A; B])
      = Some []
      /\ run_value (frames <- alloc (OList []);; apply_pipeline frames [B; A])
         = Some [sample_frame 9]).
Proof.
  split; [exact apply_pipeline_nil|].
  split; [exact apply_pipeline_two|].
  split; [exact apply_pipeline_app|].
  split; [exact apply_pipeline_raise|].
  split; vm_compute; reflexivity.
Qed.

(** ** A source that cannot be opened is skipped *)

Lemma slice_nil {A} (lo hi : option Z) : slice (@nil A) lo hi = [].
Proof. unfold slice. rewrite drop_nil. apply take_nil. Qed.

Lemma kept_nil {A} start count : kept (@nil A) start count = [].
Proof. unfold kept. rewrite !slice_nil. reflexivity. Qed.

Section Unavailable.
Context `{cv : Cv2}.

Lemma skip_append_video frames video_path rest s :
  VideoCapture (os_path_join "input" video_path) = None ->
  apply_pipeline frames (Step append_video_fn [VStr video_path] :: rest) s
  = apply_pipeline frames rest
      (State (heap s)
             (stdout s ++ [Applying "append_video" [VStr video_path];
                           ErrCannotOpen (os_path_join "input" video_path)])).
Proof.
  intros E. rewrite apply_pipeline_cons. unfold run_step. simpl.
  rewrite bind_assoc.
  rewrite (bind_run _ _ s tt
             (State (heap s)
                    (stdout s ++ [Applying "append_video" [VStr video_path]])))
    by reflexivity.
  rewrite (bind_run _ _ _ _ _ (append_video_unavailable frames video_path _ E)).
  simpl. rewrite <- app_assoc. reflexivity.
Qed.

Lemma skip_append_image frames image_path rest s :
  imread (os_path_join "input" image_path) = None ->
  apply_pipeline frames (Step append_image_fn [VStr image_path] :: rest) s
  = apply_pipeline frames rest
      (State (heap s)
             (stdout s ++ [Applying "append_image" [VStr image_path];
                           ErrCannotOpenImage image_path])).
Proof.
  intros E. rewrite apply_pipeline_cons. unfold run_step. simpl.
  rewrite bind_assoc.
  rewrite (bind_run _ _ s tt
             (State (heap s)
                    (stdout s ++ [Applying "append_image" [VStr image_path]])))
    by reflexivity.
  rewrite (bind_run _ _ _ _ _ (append_image_unavailable frames image_path _ E)).
  simpl. rewrite <- app_assoc. reflexivity.
Qed.

(** An empty sequence, a video that cannot be opened, then a cut. *)
Lemma missing_video_then_cut frames video_path start count s :
  VideoCapture (os_path_join "input" video_path) = None ->
  heap s !! frames = Some (OList []) ->
  0 <= start < str_limit -> 0 <= count < str_limit ->
  exists r s',
    apply_pipeline frames [Step append_video_fn [VStr video_path];
                           Step cut_fn [VInt start; VInt count]] s
    = Ok (r, s')
    /\ heap s' !! r = Some (OList [])
    /\ seq_value s' r = Some []
    /\ heap s' !! frames = Some (OList [])
    /\ ErrCannotOpen (os_path_join "input" video_path) ∈ stdout s'.
Proof.
  intros E Hl [Hs Hs'] [Hc Hc'].
  rewrite (skip_append_video _ _ _ _ E).
  rewrite apply_pipeline_cons. unfold run_step.
  cbn [step_func step_args fn_name fn_call cut_fn].
  rewrite !bind_assoc.
  assert (Hfmt : formats (Applying "cut" [VInt start; VInt count]) = true).
  { unfold formats. cbn [forallb value_fits].
    rewrite !fits_small by (split; assumption). reflexivity. }
  match goal with
  | |- context [bind (print ?ln) _ ?st] =>
      rewrite (bind_run (print ln) _ st tt
                 (State (heap st) (stdout st ++ [ln])))
        by (apply print_run; exact Hfmt)
  end.
  cbn [heap stdout].
  match goal with
  | |- context [bind (cut frames start count) _ ?st] =>
      pose proof (cut_run st frames [] start count Hl Hs Hc
                    (or_introl Hs') (or_introl Hc')) as Hrun
  end.
  cbv zeta in Hrun. simpl in Hrun. rewrite kept_nil in Hrun.
  rewrite (bind_run _ _ _ _ _ Hrun).
  eexists _, _. split; [reflexivity|]. simpl.
  assert (Hne : fresh (dom (heap s)) <> frames).
  { intros Heq. pose proof (fresh_unused (heap s)) as Hf.
    rewrite Heq in Hf. congruence. }
  split; [apply lookup_insert_eq|].
  split; [unfold seq_value; simpl; rewrite lookup_insert_eq; reflexivity|].
  split; [rewrite lookup_insert_ne by assumption; exact Hl|].
  rewrite !elem_of_app, !elem_of_cons. tauto.
Qed.

(** C8.  When the source cannot be opened, [append_video] and
    [append_image] print the error and return the list they were given, the
    store being as it was; the engine goes on with the remaining steps on
    that list; and on an empty sequence a video that cannot be opened
    followed by a cut (its arguments of at most 4300 digits, so that they
    can be printed) ends with an empty sequence, the error in the log. *)
Theorem unavailable_source_skipped frames path s :
  (VideoCapture (os_path_join "input" path) = None ->
   append_video frames path s
   = Ok (frames, State (heap s)
                       (stdout s ++ [ErrCannotOpen (os_path_join "input" path)]))
   /\ (forall rest,
         apply_pipeline frames (Step append_video_fn [VStr path] :: rest) s
         = apply_pipeline frames rest
             (State (heap s)
                    (stdout s ++ [Applying "append_video" [VStr path];
                                  ErrCannotOpen (os_path_join "input" path)])))
   /\ (forall start count,
         heap s !! frames = Some (OList []) ->
         0 <= start < str_limit -> 0 <= count < str_limit ->
         exists r s',
           apply_pipeline frames [Step append_video_fn [VStr path];
                                  Step cut_fn [VInt start; VInt count]] s
           = Ok (r, s')
           /\ heap s' !! r = Some (OList [])
           /\ seq_value s' r = Some []
           /\ heap s' !! frames = Some (OList [])
           /\ ErrCannotOpen (os_path_join "input" path) ∈ stdout s'))
  /\ (imread (os_path_join "input" path) = None ->
      append_image frames path s
      = Ok (frames, State (heap s) (stdout s ++ [ErrCannotOpenImage path]))
      /\ (forall rest,
            apply_pipeline frames (Step append_image_fn [VStr path] :: rest) s
            = apply_pipeline frames rest
                (State (heap s)
                       (stdout s ++ [Applying "append_image" [VStr path];
                                     ErrCannotOpenImage path])))).
Proof.
  split; intros E.
  - split; [exact (append_video_unavailable _ _ _ E)|].
    split; [intros rest; exact (skip_append_video _ _ _ _ E)|].
    intros start count. exact (missing_video_then_cut _ _ _ _ _ E).
  - split; [exact (append_image_unavailable _ _ _ E)|].
    intros rest. exact (skip_append_image _ _ _ _ E).
Qed.

End Unavailable.

Lemma unavailable_source_skipped_witness :
  exists r s',
    apply_pipeline 1%positive
      [Step (append_video_fn (cv := sample_cv2)) [VStr "missing.webm"];
       Step cut_fn [VInt 10; VInt 5]] no_frames
    = Ok (r, s')
    /\ heap s' !! r = Some (OList [])
    /\ seq_value s' r = Some []
    /\ heap s' !! 1%positive = Some (OList [])
    /\ ErrCannotOpen (os_path_join "input" "missing.webm") ∈ stdout s'.
Proof.
  refine (proj2 (proj2 (proj1 (unavailable_source_skipped (cv := sample_cv2)
                                 1%positive "missing.webm" no_frames) _))
            10 5 _ _ _).
  - reflexivity.
  - reflexivity.
  - split; [lia | reflexivity].
  - split; [lia | reflexivity].
Defined.

(** ** [cut] within the sequence *)

(** For [start] up to the length of the sequence and [count] of at most 4300
    digits, [cut] removes the window
    [[max(0, n - start - count), n - start)] and the result has the length
    that the specification's formula gives. *)
Lemma cut_within_length s frames items start count :
  heap s !! frames = Some (OList items) ->
  0 <= start <= len items -> 0 <= count < str_limit ->
  exists r s',
    cut frames start count s = Ok (r, s')
    /\ heap s' !! r
       = Some (OList
                 (take (Z.to_nat (Z.max 0 (len items - start - count))) items
                  ++ drop (Z.to_nat (len items - start)) items))
    /\ len (take (Z.to_nat (Z.max 0 (len items - start - count))) items
            ++ drop (Z.to_nat (len items - start)) items)
       = spec_cut_length (len items) start count.
Proof.
  intros Hl Hs [Hc Hc'].
  pose proof (cut_run s frames items start count Hl (proj1 Hs) Hc
                (or_intror (proj2 Hs)) (or_introl Hc')) as Hrun.
  cbv zeta in Hrun.
  pose proof (kept_length_within items start count Hs Hc) as Hlen.
  rewrite kept_within in Hrun, Hlen by assumption.
  eexists _, _. split; [exact Hrun|]. simpl.
  split; [apply lookup_insert_eq | exact Hlen].
Qed.

Lemma cut_within_length_witness :
  exists r s',
    cut 4%positive 2 1 three_frames = Ok (r, s')
    /\ heap s' !! r
       = Some (OList
                 (take (Z.to_nat (Z.max 0 (len [1; 2; 3]%positive - 2 - 1)))
                       [1; 2; 3]%positive
                  ++ drop (Z.to_nat (len [1; 2; 3]%positive - 2))
                       [1; 2; 3]%positive))
    /\ len (take (Z.to_nat (Z.max 0 (len [1; 2; 3]%positive - 2 - 1)))
                 [1; 2; 3]%positive
            ++ drop (Z.to_nat (len [1; 2; 3]%positive - 2))
                 [1; 2; 3]%positive)
       = spec_cut_length (len [1; 2; 3]%positive) 2 1.
Proof.
  apply (cut_within_length three_frames 4%positive [1; 2; 3]%positive 2 1).
  - reflexivity.
  - unfold len. simpl. lia.
  - split; [lia | reflexivity].
Defined.

(** * Further properties of the filters *)

(** ** Frames by value *)

Lemma array_at_lookup s f a :
  array_at s f = Some a <-> heap s !! f = Some (OArr a).
Proof.
  unfold array_at. destruct (heap s !! f) as [[it|a0]|]; split;
    intros H; try discriminate; congruence.
Qed.

Lemma seq_value_frames s l v :
  seq_value s l = Some v <->
  exists items, heap s !! l = Some (OList items) /\ frames_are s items v.
Proof.
  unfold seq_value, frames_are. split.
  - destruct (heap s !! l) as [[items|a]|]; try discriminate.
    intros H. exists items. split; [reflexivity|].
    apply mapM_Some in H. eapply Forall2_impl; [exact H|].
    intros f a Hf. apply array_at_lookup. exact Hf.
  - intros (items & -> & H). apply mapM_Some.
    eapply Forall2_impl; [exact H|].
    intros f a Hf. apply array_at_lookup. exact Hf.
Qed.

Lemma frames_are_grows s s' items v :
  heap s ⊆ heap s' -> frames_are s items v -> frames_are s' items v.
Proof.
  intros Hsub H. eapply Forall2_impl; [exact H|].
  intros f a Hf. exact (lookup_weaken _ _ _ _ Hf Hsub).
Qed.

Lemma seq_value_grows s s' l v :
  heap s ⊆ heap s' -> seq_value s l = Some v -> seq_value s' l = Some v.
Proof.
  intros Hsub H. apply seq_value_frames in H. destruct H as (items & Hl & Hv).
  apply seq_value_frames. exists items. split.
  - exact (lookup_weaken _ _ _ _ Hl Hsub).
  - exact (frames_are_grows _ _ _ _ Hsub Hv).
Qed.

Lemma for_each_cons {A B} (body : A -> M B) x xs s :
  for_each body (x :: xs) s
  = match body x s with
    | Ok (y, s1) =>
        match for_each body xs s1 with
        | Ok (ys, s2) => Ok (y :: ys, s2)
        | Raise e => Raise e
        end
    | Raise e => Raise e
    end.
Proof.
  simpl. unfold bind.
  destruct (body x s) as [[y s1]|e]; [|reflexivity].
  destruct (for_each body xs s1) as [[ys s2]|e]; reflexivity.
Qed.

(** ** Filters that convert every frame *)

Lemma convert_frame_run F s f a :
  heap s !! f = Some (OArr a) ->
  convert_frame F f s
  = match F a with
    | Ok g => Ok (fresh (dom (heap s)),
                  State (<[fresh (dom (heap s)) := OArr g]> (heap s))
                        (stdout s))
    | Raise e => Raise e
    end.
Proof.
  intros Ha. unfold convert_frame.
  rewrite (bind_run _ _ s a s) by (apply get_array_Ok; auto).
  unfold bind, lift, alloc. destruct (F a); reflexivity.
Qed.

(** The loop over the frames: it returns new arrays, the conversions of the
    old ones in order, or it raises what the library raised on a frame. *)
Lemma convert_loop F items : forall v s,
  frames_are s items v ->
  match for_each (convert_frame F) items s with
  | Ok (out, s') =>
      heap s ⊆ heap s' /\ stdout s' = stdout s
      /\ exists v', frames_are s' out v'
                    /\ Forall2 (fun a g => F a = Ok g) v v'
  | Raise e => exists a, a ∈ v /\ F a = Raise e
  end.
Proof.
  induction items as [|f items IH]; intros v s Hv.
  - apply Forall2_nil_inv_l in Hv. subst v. simpl.
    split; [reflexivity|]. split; [reflexivity|].
    exists []. split; constructor.
  - apply Forall2_cons_inv_l in Hv.
    destruct Hv as (a & vr & Ha & Hvr & ->).
    rewrite for_each_cons, (convert_frame_run F s f a Ha).
    destruct (F a) as [g|e] eqn:EF.
    + set (y := fresh (dom (heap s))).
      set (s1 := State (<[y := OArr g]> (heap s)) (stdout s)).
      assert (Hsub1 : heap s ⊆ heap s1) by apply alloc_extends.
      specialize (IH vr s1 (frames_are_grows _ _ _ _ Hsub1 Hvr)).
      destruct (for_each (convert_frame F) items s1) as [[ys s2]|e].
      * destruct IH as (Hsub2 & Hlog & v' & Hv' & HF).
        split; [etrans; eassumption|]. split; [exact Hlog|].
        exists (g :: v'). split.
        -- constructor; [|exact Hv'].
           apply (lookup_weaken (heap s1)); [apply lookup_insert_eq | exact Hsub2].
        -- constructor; assumption.
      * destruct IH as (a' & Ha' & HF). exists a'. split; [|exact HF].
        apply list_elem_of_further. exact Ha'.
    + exists a. split; [apply list_elem_of_here | exact EF].
Qed.

Lemma convert_filter F (filter : loc -> M loc) :
  (forall frames s,
     filter frames s
     = (items <- get_list frames;;
        out <- for_each (convert_frame F) items;;
        alloc (OList out)) s) ->
  forall s frames v,
    seq_value s frames = Some v ->
    match filter frames s with
    | Ok (r, s') =>
        exists v', seq_value s' r = Some v'
                   /\ Forall2 (fun a g => F a = Ok g) v v'
                   /\ length v' = length v
                   /\ seq_value s' frames = Some v
                   /\ stdout s' = stdout s
    | Raise e => exists a, a ∈ v /\ F a = Raise e
    end.
Proof.
  intros Hunfold s frames v Hv. rewrite Hunfold.
  pose proof Hv as Hv0.
  apply seq_value_frames in Hv. destruct Hv as (items & Hl & Hitems).
  rewrite (bind_run _ _ s items s) by (apply get_list_Ok; auto).
  pose proof (convert_loop F items v s Hitems) as Hloop.
  unfold bind at 1.
  destruct (for_each (convert_frame F) items s) as [[out s1]|e];
    [|exact Hloop].
  destruct Hloop as (Hsub & Hlog & v' & Hv' & HF).
  unfold alloc. simpl.
  assert (Hsub' : heap s ⊆ <[fresh (dom (heap s1)) := OList out]> (heap s1))
    by (etrans; [exact Hsub | apply alloc_extends]).
  exists v'. split; [|split; [exact HF|split; [|split]]].
  - apply seq_value_frames. exists out. simpl.
    split; [apply lookup_insert_eq|].
    eapply frames_are_grows; [|exact Hv']. simpl. apply alloc_extends.
  - symmetry. exact (Forall2_length _ _ _ HF).
  - eapply seq_value_grows; [|exact Hv0]. exact Hsub'.
  - exact Hlog.
Qed.

Section ConvertingFilters.
Context `{cv : Cv2}.

(** [to_grayscale] on a sequence of frames [v]: it either returns a new
    sequence of as many frames, the grey conversions of those of [v] in
    order, leaving the input and the log as they were, or raises what
    [cvtColor] raised on a frame of [v]. *)
Theorem to_grayscale_frames s frames v :
  seq_value s frames = Some v ->
  match to_grayscale frames s with
  | Ok (r, s') =>
      exists v', seq_value s' r = Some v'
                 /\ Forall2 (fun a g => cvtColor a COLOR_BGR2GRAY = Ok g) v v'
                 /\ length v' = length v
                 /\ seq_value s' frames = Some v
                 /\ stdout s' = stdout s
  | Raise e => exists a, a ∈ v /\ cvtColor a COLOR_BGR2GRAY = Raise e
  end.
Proof.
  apply (convert_filter (fun a => cvtColor a COLOR_BGR2GRAY) to_grayscale).
  intros frames' s'. reflexivity.
Qed.

(** [blur_frames], likewise, with [GaussianBlur(f, ksize, 0)]. *)
Theorem blur_frames_frames s frames ksize v :
  seq_value s frames = Some v ->
  match blur_frames frames ksize s with
  | Ok (r, s') =>
      exists v', seq_value s' r = Some v'
                 /\ Forall2 (fun a g => GaussianBlur a ksize 0 = Ok g) v v'
                 /\ length v' = length v
                 /\ seq_value s' frames = Some v
                 /\ stdout s' = stdout s
  | Raise e => exists a, a ∈ v /\ GaussianBlur a ksize 0 = Raise e
  end.
Proof.
  apply (convert_filter (fun a => GaussianBlur a ksize 0)
           (fun frames => blur_frames frames ksize)).
  intros frames' s'. reflexivity.
Qed.

(** ** [ensure_3channel] by value *)

Lemma ensure_frame_run s f a :
  heap s !! f = Some (OArr a) ->
  ensure_frame f s
  = if (length (shape a) =? 2)%nat
    then match cvtColor a COLOR_GRAY2BGR with
         | Ok g => Ok (fresh (dom (heap s)),
                       State (<[fresh (dom (heap s)) := OArr g]> (heap s))
                             (stdout s))
         | Raise e => Raise e
         end
    else Ok (f, s).
Proof.
  intros Ha. unfold ensure_frame.
  rewrite (bind_run _ _ s a s) by (apply get_array_Ok; auto).
  destruct (length (shape a) =? 2)%nat; [|reflexivity].
  unfold bind, lift, alloc. destruct (cvtColor a COLOR_GRAY2BGR); reflexivity.
Qed.

Lemma ensure_loop items : forall v s,
  frames_are s items v ->
  match for_each ensure_frame items s with
  | Ok (out, s') =>
      heap s ⊆ heap s' /\ stdout s' = stdout s
      /\ exists v', frames_are s' out v' /\ Forall2 three_channel v v'
  | Raise e =>
      exists a, a ∈ v /\ length (shape a) = 2%nat
                /\ cvtColor a COLOR_GRAY2BGR = Raise e
  end.
Proof.
  induction items as [|f items IH]; intros v s Hv.
  - apply Forall2_nil_inv_l in Hv. subst v. simpl.
    split; [reflexivity|]. split; [reflexivity|].
    exists []. split; constructor.
  - apply Forall2_cons_inv_l in Hv.
    destruct Hv as (a & vr & Ha & Hvr & ->).
    rewrite for_each_cons, (ensure_frame_run s f a Ha).
    destruct (length (shape a) =? 2)%nat eqn:Hdim.
    + destruct (cvtColor a COLOR_GRAY2BGR) as [g|e] eqn:EF.
      * set (y := fresh (dom (heap s))).
        set (s1 := State (<[y := OArr g]> (heap s)) (stdout s)).
        assert (Hsub1 : heap s ⊆ heap s1) by apply alloc_extends.
        specialize (IH vr s1 (frames_are_grows _ _ _ _ Hsub1 Hvr)).
        destruct (for_each ensure_frame items s1) as [[ys s2]|e].
        -- destruct IH as (Hsub2 & Hlog & v' & Hv' & HF).
           split; [etrans; eassumption|]. split; [exact Hlog|].
           exists (g :: v'). split.
           ++ constructor; [|exact Hv'].
              apply (lookup_weaken (heap s1));
                [apply lookup_insert_eq | exact Hsub2].
           ++ constructor; [|exact HF].
              unfold three_channel. rewrite Hdim. exact EF.
        -- destruct IH as (a' & Ha' & HF). exists a'. split; [|exact HF].
           apply list_elem_of_further. exact Ha'.
      * exists a. split; [apply list_elem_of_here|].
        split; [apply Nat.eqb_eq; exact Hdim | exact EF].
    + specialize (IH vr s Hvr).
      destruct (for_each ensure_frame items s) as [[ys s2]|e].
      * destruct IH as (Hsub2 & Hlog & v' & Hv' & HF).
        split; [exact Hsub2|]. split; [exact Hlog|].
        exists (a :: v'). split.
        -- constructor; [|exact Hv'].
           exact (lookup_weaken _ _ _ _ Ha Hsub2).
        -- constructor; [|exact HF].
           unfold three_channel. rewrite Hdim. reflexivity.
      * destruct IH as (a' & Ha' & HF). exists a'. split; [|exact HF].
        apply list_elem_of_further. exact Ha'.
Qed.

(** [ensure_3channel] on a sequence of frames [v]: it either returns a new
    sequence of as many frames, in which a two-dimensional frame is replaced
    by its GRAY2BGR conversion and every other frame is kept as it is, or
    raises what [cvtColor] raised on a two-dimensional frame of [v]. *)
Theorem ensure_3channel_frames s frames v :
  seq_value s frames = Some v ->
  match ensure_3channel frames s with
  | Ok (r, s') =>
      exists v', seq_value s' r = Some v'
                 /\ Forall2 three_channel v v'
                 /\ length v' = length v
                 /\ seq_value s' frames = Some v
  | Raise e =>
      exists a, a ∈ v /\ length (shape a) = 2%nat
                /\ cvtColor a COLOR_GRAY2BGR = Raise e
  end.
Proof.
  intros Hv. rewrite ensure_3channel_unfold.
  pose proof Hv as Hv0.
  apply seq_value_frames in Hv. destruct Hv as (items & Hl & Hitems).
  rewrite (bind_run _ _ s items s) by (apply get_list_Ok; auto).
  pose proof (ensure_loop items v s Hitems) as Hloop.
  unfold bind at 1.
  destruct (for_each ensure_frame items s) as [[out s1]|e]; [|exact Hloop].
  destruct Hloop as (Hsub & Hlog & v' & Hv' & HF).
  unfold alloc. simpl.
  exists v'. split; [|split; [exact HF|split]].
  - apply seq_value_frames. exists out. simpl.
    split; [apply lookup_insert_eq|].
    eapply frames_are_grows; [|exact Hv']. simpl. apply alloc_extends.
  - symmetry. exact (Forall2_length _ _ _ HF).
  - eapply seq_value_grows; [|exact Hv0]. simpl.
    etrans; [exact Hsub | apply alloc_extends].
Qed.

End ConvertingFilters.

Lemma to_grayscale_frames_witness :
  match to_grayscale (cv := sample_cv2) 3%positive colour_frames with
  | Ok (r, s') =>
      exists v', seq_value s' r = Some v'
                 /\ Forall2 (fun a g =>
                               cvtColor (Cv2 := sample_cv2) a COLOR_BGR2GRAY
                               = Ok g)
                            [sample_frame 1; sample_frame 2] v'
                 /\ length v' = length [sample_frame 1; sample_frame 2]
                 /\ seq_value s' 3%positive
                    = Some [sample_frame 1; sample_frame 2]
                 /\ stdout s' = stdout colour_frames
  | Raise e =>
      exists a, a ∈ [sample_frame 1; sample_frame 2]
                /\ cvtColor (Cv2 := sample_cv2) a COLOR_BGR2GRAY = Raise e
  end.
Proof.
  apply (to_grayscale_frames (cv := sample_cv2) colour_frames 3%positive
           [sample_frame 1; sample_frame 2]).
  reflexivity.
Defined.

Lemma blur_frames_frames_witness :
  match blur_frames (cv := sample_cv2) 3%positive (VTuple [9; 9])
          colour_frames with
  | Ok (r, s') =>
      exists v', seq_value s' r = Some v'
                 /\ Forall2 (fun a g =>
                               GaussianBlur (Cv2 := sample_cv2) a
                                 (VTuple [9; 9]) 0 = Ok g)
                            [sample_frame 1; sample_frame 2] v'
                 /\ length v' = length [sample_frame 1; sample_frame 2]
                 /\ seq_value s' 3%positive
                    = Some [sample_frame 1; sample_frame 2]
                 /\ stdout s' = stdout colour_frames
  | Raise e =>
      exists a, a ∈ [sample_frame 1; sample_frame 2]
                /\ GaussianBlur (Cv2 := sample_cv2) a (VTuple [9; 9]) 0
                   = Raise e
  end.
Proof.
  apply (blur_frames_frames (cv := sample_cv2) colour_frames 3%positive
           (VTuple [9; 9]) [sample_frame 1; sample_frame 2]).
  reflexivity.
Defined.

Lemma ensure_3channel_frames_witness :
  match ensure_3channel (cv := sample_cv2) 4%positive mixed_frames with
  | Ok (r, s') =>
      exists v', seq_value s' r = Some v'
                 /\ Forall2 (three_channel (cv := sample_cv2))
                      [sample_frame 1; sample_frame 2; tagged 7] v'
                 /\ length v'
                    = length [sample_frame 1; sample_frame 2; tagged 7]
                 /\ seq_value s' 4%positive
                    = Some [sample_frame 1; sample_frame 2; tagged 7]
  | Raise e =>
      exists a, a ∈ [sample_frame 1; sample_frame 2; tagged 7]
                /\ length (shape a) = 2%nat
                /\ cvtColor (Cv2 := sample_cv2) a COLOR_GRAY2BGR = Raise e
  end.
Proof.
  apply (ensure_3channel_frames (cv := sample_cv2) mixed_frames 4%positive
           [sample_frame 1; sample_frame 2; tagged 7]).
  reflexivity.
Defined.

(** ** Appending *)

Section Appending.
Context `{cv : Cv2}.

(** The reading loop hands out one new array per decoded frame, in order,
    after those collected so far. *)
Lemma read_frames_run cap : forall new_frames s,
  exists added s',
    read_frames cap new_frames s = Ok (new_frames ++ added, s')
    /\ heap s ⊆ heap s'
    /\ stdout s' = stdout s
    /\ frames_are s' added cap.
Proof.
  induction cap as [|frame cap IH]; intros new_frames s; simpl.
  - exists [], s. rewrite app_nil_r.
    split; [reflexivity|]. split; [reflexivity|]. split; [reflexivity|].
    constructor.
  - set (f := fresh (dom (heap s))).
    set (s1 := State (<[f := OArr frame]> (heap s)) (stdout s)).
    destruct (IH (new_frames ++ [f]) s1) as (added & s' & Hrun & Hsub & Hlog & Hadded).
    exists (f :: added), s'.
    rewrite (bind_run _ _ s f s1) by reflexivity.
    rewrite Hrun, <- app_assoc. simpl.
    split; [reflexivity|].
    split; [etrans; [apply alloc_extends | exact Hsub]|].
    split; [exact Hlog|].
    constructor; [|exact Hadded].
    apply (lookup_weaken (heap s1)); [apply lookup_insert_eq | exact Hsub].
Qed.

(** When the video opens, [append_video] returns a new sequence: the frames
    of the input followed by the decoded frames, in order; it reports their
    number, and the input sequence is as before. *)
Theorem append_video_frames s frames video_path cap v :
  VideoCapture (os_path_join "input" video_path) = Some cap ->
  seq_value s frames = Some v ->
  exists r s',
    append_video frames video_path s = Ok (r, s')
    /\ seq_value s' r = Some (v ++ cap)
    /\ seq_value s' frames = Some v
    /\ stdout s' = stdout s ++ [AppendedFrames (length cap) video_path].
Proof.
  intros Hcap Hv. pose proof Hv as Hv0.
  apply seq_value_frames in Hv. destruct Hv as (items & Hl & Hitems).
  destruct (read_frames_run cap [] s) as (added & s1 & Hrun & Hsub & Hlog & Hadded).
  simpl in Hrun.
  set (s2 := State (heap s1)
                   (stdout s1 ++ [AppendedFrames (length added) video_path])).
  exists (fresh (dom (heap s2))),
         (State (<[fresh (dom (heap s2)) := OList (items ++ added)]> (heap s2))
                (stdout s2)).
  assert (Hlen : length added = length cap)
    by exact (Forall2_length _ _ _ Hadded).
  split; [|split; [|split]].
  - unfold append_video. rewrite Hcap.
    rewrite (bind_run _ _ _ _ _ Hrun).
    rewrite (bind_run _ _ s1 tt s2) by reflexivity.
    rewrite (bind_run _ _ s2 items s2); [reflexivity|].
    apply get_list_Ok. split; [|reflexivity].
    exact (lookup_weaken _ _ _ _ Hl Hsub).
  - apply seq_value_frames. exists (items ++ added). simpl.
    split; [apply lookup_insert_eq|].
    eapply (frames_are_grows s2); [simpl; apply alloc_extends|].
    apply Forall2_app; [|exact Hadded].
    exact (frames_are_grows _ _ _ _ Hsub Hitems).
  - eapply seq_value_grows; [|exact Hv0]. simpl.
    etrans; [exact Hsub | apply alloc_extends].
  - simpl. rewrite Hlog, Hlen. reflexivity.
Qed.

(** When the image can be read, [append_image] returns a new sequence: the
    frames of the input followed by the image; the input sequence is as
    before. *)
Theorem append_image_frames s frames image_path pixels v :
  imread (os_path_join "input" image_path) = Some pixels ->
  seq_value s frames = Some v ->
  exists r s',
    append_image frames image_path s = Ok (r, s')
    /\ seq_value s' r = Some (v ++ [pixels])
    /\ seq_value s' frames = Some v
    /\ stdout s' = stdout s ++ [AppendedImage image_path].
Proof.
  intros Himg Hv. pose proof Hv as Hv0.
  apply seq_value_frames in Hv. destruct Hv as (items & Hl & Hitems).
  set (img := fresh (dom (heap s))).
  set (s1 := State (<[img := OArr pixels]> (heap s)) (stdout s)).
  set (s2 := State (heap s1) (stdout s1 ++ [AppendedImage image_path])).
  assert (Hsub : heap s ⊆ heap s2) by apply alloc_extends.
  exists (fresh (dom (heap s2))),
         (State (<[fresh (dom (heap s2)) := OList (items ++ [img])]> (heap s2))
                (stdout s2)).
  split; [|split; [|split]].
  - unfold append_image. rewrite Himg.
    rewrite (bind_run _ _ s img s1) by reflexivity.
    rewrite (bind_run _ _ s1 tt s2) by reflexivity.
    rewrite (bind_run _ _ s2 items s2); [reflexivity|].
    apply get_list_Ok. split; [|reflexivity].
    exact (lookup_weaken _ _ _ _ Hl Hsub).
  - apply seq_value_frames. exists (items ++ [img]). simpl.
    split; [apply lookup_insert_eq|].
    eapply (frames_are_grows s2); [simpl; apply alloc_extends|].
    apply Forall2_app; [exact (frames_are_grows _ _ _ _ Hsub Hitems)|].
    constructor; [|constructor]. simpl. apply lookup_insert_eq.
  - eapply seq_value_grows; [|exact Hv0]. simpl.
    etrans; [exact Hsub | apply alloc_extends].
  - reflexivity.
Qed.

End Appending.

Lemma append_video_frames_witness :
  exists r s',
    append_video (cv := sample_cv2) 3%positive "maw.webm" colour_frames
    = Ok (r, s')
    /\ seq_value s' r
       = Some ([sample_frame 1; sample_frame 2]
               ++ [sample_frame 1; sample_frame 2; sample_frame 3])
    /\ seq_value s' 3%positive = Some [sample_frame 1; sample_frame 2]
    /\ stdout s'
       = stdout colour_frames
         ++ [AppendedFrames
               (length [sample_frame 1; sample_frame 2; sample_frame 3])
               "maw.webm"].
Proof.
  apply (append_video_frames (cv := sample_cv2) colour_frames 3%positive
           "maw.webm" [sample_frame 1; sample_frame 2; sample_frame 3]
           [sample_frame 1; sample_frame 2]); reflexivity.
Defined.

Lemma append_image_frames_witness :
  exists r s',
    append_image (cv := sample_cv2) 3%positive "huh.png" colour_frames
    = Ok (r, s')
    /\ seq_value s' r
       = Some ([sample_frame 1; sample_frame 2] ++ [sample_frame 9])
    /\ seq_value s' 3%positive = Some [sample_frame 1; sample_frame 2]
    /\ stdout s' = stdout colour_frames ++ [AppendedImage "huh.png"].
Proof.
  apply (append_image_frames (cv := sample_cv2) colour_frames 3%positive
           "huh.png" (sample_frame 9) [sample_frame 1; sample_frame 2]);
    reflexivity.
Defined.

(** ** What [cut] keeps *)

Lemma take_drop_sublist {A} (l : list A) (a b : nat) :
  (a <= b)%nat -> take a l ++ drop b l `sublist_of` l.
Proof.
  intros Hab. rewrite <- (take_drop a l) at 3.
  apply sublist_app; [reflexivity|].
  replace b with (a + (b - a))%nat by lia.
  rewrite <- drop_drop. apply sublist_drop.
Qed.

Lemma kept_sublist {A} (items : list A) (start count : Z) :
  0 <= start -> 0 <= count -> kept items start count `sublist_of` items.
Proof.
  intros Hs Hc. destruct (Z.le_gt_cases start (len items)) as [Hle|Hgt].
  - rewrite kept_within by (assumption || lia).
    apply take_drop_sublist. lia.
  - rewrite kept_beyond by (assumption || lia). apply sublist_drop.
Qed.

(** Whenever [cut] returns, the list it returns holds frames of the input
    list only, in the input's order and none more often than the input holds
    it (it is a sublist of the input), so it is never longer than the input;
    the frames are the same objects, and no object of the store is changed.
    When it raises, either an argument is negative and the assertion failed,
    or an argument has more than 4300 digits and line 49 could not print
    it. *)
Theorem cut_keeps_order s frames items start count :
  heap s !! frames = Some (OList items) ->
  match cut frames start count s with
  | Ok (r, s') =>
      exists out,
        heap s' !! r = Some (OList out)
        /\ out `sublist_of` items
        /\ len out <= len items
        /\ heap s ⊆ heap s'
  | Raise e =>
      (e = AssertionError "cut() indices must be non-negative"
       /\ (start < 0 \/ count < 0))
      \/ (e = DigitsValueError
          /\ (str_limit <= start \/ str_limit <= count))
  end.
Proof.
  intros Hl.
  destruct (Z.lt_ge_cases start 0) as [Hs|Hs];
    [|destruct (Z.lt_ge_cases count 0) as [Hc|Hc]].
  - assert (E : cut frames start count s
                = Raise (AssertionError "cut() indices must be non-negative")).
    { unfold cut.
      replace ((0 <=? start) && (0 <=? count)) with false; [reflexivity|].
      symmetry. apply andb_false_iff. left. apply Z.leb_gt. exact Hs. }
    rewrite E. left. split; [reflexivity | left; exact Hs].
  - assert (E : cut frames start count s
                = Raise (AssertionError "cut() indices must be non-negative")).
    { unfold cut.
      replace ((0 <=? start) && (0 <=? count)) with false; [reflexivity|].
      symmetry. apply andb_false_iff. right. apply Z.leb_gt. exact Hc. }
    rewrite E. left. split; [reflexivity | right; exact Hc].
  - destruct (Z.lt_ge_cases start str_limit) as [Hs'|Hs'];
      [destruct (Z.lt_ge_cases count str_limit) as [Hc'|Hc']|].
    + pose proof (cut_run s frames items start count Hl Hs Hc
                    (or_introl Hs') (or_introl Hc')) as Hrun.
      cbv zeta in Hrun. rewrite Hrun.
      pose proof (kept_sublist items start count Hs Hc) as Hsub.
      eexists. simpl. split; [apply lookup_insert_eq|].
      split; [exact Hsub|].
      split; [unfold len; apply sublist_length in Hsub; lia|].
      apply alloc_extends.
    + destruct (cut frames start count s) as [[r s']|e] eqn:E.
      * apply cut_Ok in E.
        destruct E as (items' & Hl' & _ & _ & -> & ->).
        assert (items' = items) by congruence. subst items'.
        pose proof (kept_sublist items start count Hs Hc) as Hsub.
        eexists. simpl. split; [apply lookup_insert_eq|].
        split; [exact Hsub|].
        split; [unfold len; apply sublist_length in Hsub; lia|].
        apply alloc_extends.
      * right. split; [|right; exact Hc'].
        destruct (Z.le_gt_cases count (len items)) as [Hle|Hgt].
        -- pose proof (cut_run s frames items start count Hl Hs Hc
                         (or_introl Hs') (or_intror Hle)) as Hrun.
           cbv zeta in Hrun. congruence.
        -- pose proof (cut_raises_digits s frames items start count Hl Hs Hc
                         (or_intror (conj Hc' Hgt))) as Hr.
           congruence.
    + destruct (cut frames start count s) as [[r s']|e] eqn:E.
      * apply cut_Ok in E.
        destruct E as (items' & Hl' & _ & _ & -> & ->).
        assert (items' = items) by congruence. subst items'.
        pose proof (kept_sublist items start count Hs Hc) as Hsub.
        eexists. simpl. split; [apply lookup_insert_eq|].
        split; [exact Hsub|].
        split; [unfold len; apply sublist_length in Hsub; lia|].
        apply alloc_extends.
      * right. split; [|left; exact Hs'].
        destruct (Z.le_gt_cases start (len items)) as [Hle|Hgt].
        -- destruct (Z.lt_ge_cases count str_limit) as [Hc'|Hc'];
             [|destruct (Z.le_gt_cases count (len items)) as [Hcle|Hcgt]].
           ++ pose proof (cut_run s frames items start count Hl Hs Hc
                            (or_intror Hle) (or_introl Hc')) as Hrun.
              cbv zeta in Hrun. congruence.
           ++ pose proof (cut_run s frames items start count Hl Hs Hc
                            (or_intror Hle) (or_intror Hcle)) as Hrun.
              cbv zeta in Hrun. congruence.
           ++ pose proof (cut_raises_digits s frames items start count
                            Hl Hs Hc (or_intror (conj Hc' Hcgt))) as Hr.
              congruence.
        -- pose proof (cut_raises_digits s frames items start count Hl Hs Hc
                         (or_introl (conj Hs' Hgt))) as Hr.
           congruence.
Qed.

Lemma cut_keeps_order_witness :
  match cut 4%positive 5 1 three_frames with
  | Ok (r, s') =>
      exists out,
        heap s' !! r = Some (OList out)
        /\ out `sublist_of` [1; 2; 3]%positive
        /\ len out <= len [1; 2; 3]%positive
        /\ heap three_frames ⊆ heap s'
  | Raise e =>
      (e = AssertionError "cut() indices must be non-negative"
       /\ (5 < 0 \/ 1 < 0))
      \/ (e = DigitsValueError /\ (str_limit <= 5 \/ str_limit <= 1))
  end.
Proof.
  apply (cut_keeps_order three_frames 4%positive [1; 2; 3]%positive 5 1).
  reflexivity.
Defined.

(** There [cut] does return. *)
Example cut_keeps_order_returns :
  match cut 4%positive 5 1 three_frames with
  | Ok (r, s') => heap s' !! r = Some (OList [2; 3]%positive)
  | Raise _ => False
  end.
Proof. vm_compute. reflexivity. Qed.

(** With [count = 0] and [start] within the sequence, [cut] removes nothing:
    the list returned holds the frames of the input. *)
Theorem cut_count_zero s frames items start :
  heap s !! frames = Some (OList items) ->
  0 <= start <= len items ->
  exists r s',
    cut frames start 0 s = Ok (r, s')
    /\ heap s' !! r = Some (OList items)
    /\ heap s ⊆ heap s'.
Proof.
  intros Hl Hs.
  pose proof (cut_run s frames items start 0 Hl (proj1 Hs) (Z.le_refl 0)
                (or_intror (proj2 Hs)) (or_introl eq_refl)) as Hrun.
  cbv zeta in Hrun.
  rewrite kept_within in Hrun by (assumption || lia).
  replace (Z.max 0 (len items - start - 0)) with (len items - start)
    in Hrun at 1 by lia.
  rewrite take_drop in Hrun.
  eexists _, _. split; [exact Hrun|]. simpl.
  split; [apply lookup_insert_eq | apply alloc_extends].
Qed.

Lemma cut_count_zero_witness :
  exists r s',
    cut 4%positive 2 0 three_frames = Ok (r, s')
    /\ heap s' !! r = Some (OList [1; 2; 3]%positive)
    /\ heap three_frames ⊆ heap s'.
Proof.
  apply (cut_count_zero three_frames 4%positive [1; 2; 3]%positive 2);
    [reflexivity | unfold len; simpl; lia].
Defined.

(** With [start = 0] and [count] of at most 4300 digits, [cut] removes the
    last [count] frames, all of them when [count] exceeds the length. *)
Theorem cut_from_end s frames items count :
  heap s !! frames = Some (OList items) ->
  0 <= count < str_limit ->
  exists r s',
    cut frames 0 count s = Ok (r, s')
    /\ heap s' !! r
       = Some (OList (take (length items - Z.to_nat count) items)).
Proof.
  intros Hl [Hc Hc'].
  pose proof (cut_run s frames items 0 count Hl (Z.le_refl 0) Hc
                (or_introl eq_refl) (or_introl Hc')) as Hrun.
  cbv zeta in Hrun.
  rewrite kept_within in Hrun by (unfold len; lia).
  rewrite Z.sub_0_r in Hrun. unfold len in Hrun at 2.
  rewrite Nat2Z.id, drop_all, app_nil_r in Hrun.
  replace (Z.to_nat (Z.max 0 (len items - count)))
    with (length items - Z.to_nat count)%nat in Hrun by (unfold len; lia).
  eexists _, _. split; [exact Hrun|]. simpl. apply lookup_insert_eq.
Qed.

Lemma cut_from_end_witness :
  exists r s',
    cut 4%positive 0 2 three_frames = Ok (r, s')
    /\ heap s' !! r
       = Some (OList (take (length [1; 2; 3]%positive - Z.to_nat 2)
                           [1; 2; 3]%positive)).
Proof.
  apply (cut_from_end three_frames 4%positive [1; 2; 3]%positive 2);
    [reflexivity | split; [lia | reflexivity]].
Defined.

(** Cutting [a] frames from the end and then [b] more gives the frames that
    cutting [a + b] from the end gives, [a + b] having at most 4300
    digits. *)
Theorem cut_from_end_twice s frames items a b :
  heap s !! frames = Some (OList items) ->
  0 <= a -> 0 <= b -> a + b < str_limit ->
  exists r s' r2 s2,
    (x <- cut frames 0 a;; cut x 0 b) s = Ok (r, s')
    /\ cut frames 0 (a + b) s = Ok (r2, s2)
    /\ seq_items s' r = seq_items s2 r2
    /\ seq_items s2 r2
       = Some (take (length items - Z.to_nat (a + b)) items).
Proof.
  intros Hl Ha Hb Hab.
  destruct (cut_from_end s frames items a Hl ltac:(lia))
    as (r1 & s1 & Hrun1 & Hr1).
  destruct (cut_from_end s1 r1 _ b Hr1 ltac:(lia)) as (r & s' & Hrun & Hr).
  destruct (cut_from_end s frames items (a + b) Hl ltac:(lia))
    as (r2 & s2 & Hrun2 & Hr2).
  exists r, s', r2, s2.
  split; [rewrite (bind_run _ _ _ _ _ Hrun1); exact Hrun|].
  split; [exact Hrun2|].
  unfold seq_items. rewrite Hr, Hr2.
  split; [|reflexivity].
  rewrite take_take, length_take. do 2 f_equal. lia.
Qed.

Lemma cut_from_end_twice_witness :
  exists r s' r2 s2,
    (x <- cut 4%positive 0 1;; cut x 0 1) three_frames = Ok (r, s')
    /\ cut 4%positive 0 (1 + 1) three_frames = Ok (r2, s2)
    /\ seq_items s' r = seq_items s2 r2
    /\ seq_items s2 r2
       = Some (take (length [1; 2; 3]%positive - Z.to_nat (1 + 1))
                    [1; 2; 3]%positive).
Proof.
  apply (cut_from_end_twice three_frames 4%positive [1; 2; 3]%positive 1 1);
    [reflexivity | lia | lia | reflexivity].
Defined.

(** ** Pipelines that do not draw *)

Lemma grows_raise {A} e : grows (@raise A e).
Proof. intros s a s' H. discriminate H. Qed.

Lemma cut_grows frames start count : grows (cut frames start count).
Proof. unfold cut. grows_tac. Qed.

Section NonDrawing.
Context `{cv : Cv2}.

Lemma to_grayscale_grows frames : grows (to_grayscale frames).
Proof. unfold to_grayscale. grows_tac. Qed.

Lemma blur_frames_grows frames ksize : grows (blur_frames frames ksize).
Proof. unfold blur_frames. grows_tac. Qed.

Lemma ensure_3channel_grows frames : grows (ensure_3channel frames).
Proof.
  unfold ensure_3channel. grows_tac.
  match goal with
  | |- grows (if ?c then _ else _) => destruct c; grows_tac
  end.
Qed.

Lemma non_drawing_grows st frames :
  non_drawing st -> grows (fn_call (step_func st) frames (step_args st)).
Proof.
  intros H. destruct st as [func args]. unfold non_drawing in H. simpl in *.
  destruct H as [-> | [-> | [-> | [-> | [-> | ->]]]]]; simpl;
    repeat match goal with
      | |- grows (match ?x with _ => _ end) => destruct x
      end;
    first [ apply grows_raise | apply append_video_grows
          | apply append_image_grows | apply cut_grows
          | apply to_grayscale_grows | apply ensure_3channel_grows
          | apply blur_frames_grows ].
Qed.

Lemma apply_pipeline_grows pipeline : forall frames,
  Forall non_drawing pipeline -> grows (apply_pipeline frames pipeline).
Proof.
  induction pipeline as [|st rest IH]; intros frames Hall; simpl.
  - apply grows_ret.
  - apply Forall_cons in Hall. destruct Hall as [Hst Hrest].
    apply grows_bind; [apply grows_print | intros _].
    apply grows_bind; [apply non_drawing_grows; exact Hst | intros x].
    apply IH. exact Hrest.
Qed.

(** A pipeline without [overlay_text] steps changes no object that existed
    before it ran: the initial sequence and its frames are, at the end, what
    they were at the start, whatever the steps and their arguments. *)
Theorem pipeline_without_overlay s frames pipeline :
  Forall non_drawing pipeline ->
  match apply_pipeline frames pipeline s with
  | Ok (r, s') =>
      (forall l o, heap s !! l = Some o -> heap s' !! l = Some o)
      /\ input_unchanged s s' frames
      /\ forall v, seq_value s frames = Some v -> seq_value s' frames = Some v
  | Raise _ => True
  end.
Proof.
  intros Hall.
  destruct (apply_pipeline frames pipeline s) as [[r s']|e] eqn:E; [|exact I].
  pose proof (apply_pipeline_grows pipeline frames Hall s r s' E) as Hsub.
  split; [|split].
  - intros l o Hl. exact (lookup_weaken _ _ _ _ Hl Hsub).
  - apply grows_input_unchanged. exact Hsub.
  - intros v. apply seq_value_grows. exact Hsub.
Qed.

(** ** Drawing on the result of a cut *)

(** [overlay_text] writes arrays only: every list object is as before. *)
Lemma overlay_text_lists frames text position color s r s' :
  overlay_text frames text position color s = Ok (r, s') ->
  forall l its, heap s !! l = Some (OList its) ->
                heap s' !! l = Some (OList its).
Proof.
  unfold overlay_text. intros H. run_inv.
  match goal with Hl : for_each _ _ _ = Ok _ |- _ =>
    destruct (draw_loop _ _ _ _ _ _ _ Hl) as (_ & Hlist & _) end.
  exact Hlist.
Qed.

(** [cut] returns the frames of its input, not copies, so a later
    [overlay_text] on the result draws on the surviving frames of the list
    that was given to [cut]: that list still holds the same references, and
    each surviving frame now holds the drawing. *)
Theorem overlay_after_cut s frames items start count text position color :
  heap s !! frames = Some (OList items) ->
  NoDup items ->
  0 <= start -> 0 <= count ->
  match (x <- cut frames start count;;
         overlay_text x text position color) s with
  | Ok (r, s') =>
      heap s' !! frames = Some (OList items)
      /\ heap s' !! r = Some (OList (kept items start count))
      /\ forall f a, f ∈ kept items start count ->
           heap s !! f = Some (OArr a) ->
           exists a',
             putText a text position FONT_HERSHEY_SIMPLEX 1 color 2 = Ok a'
             /\ heap s' !! f = Some (OArr a')
  | Raise _ => True
  end.
Proof.
  intros Hl Hnd Hs Hc.
  destruct (cut frames start count s) as [[r1 s1]|e1] eqn:Hrun;
    [|rewrite (bind_Raise _ _ _ _ Hrun); exact I].
  rewrite (bind_run _ _ _ _ _ Hrun).
  apply cut_Ok in Hrun. destruct Hrun as (items' & Hl' & _ & _ & Hr1eq & Hs1).
  assert (items' = items) by congruence. subst items'.
  assert (Hsub : heap s ⊆ heap s1) by (subst s1 r1; apply alloc_extends).
  destruct (overlay_text r1 text position color s1) as [[r s']|e] eqn:E;
    [|exact I].
  pose proof E as E0. apply overlay_text_in_place in E.
  destruct E as (-> & its & Hr1 & Hr1' & _ & Hout & Hin).
  assert (Hits : its = kept items start count).
  { subst s1 r1. simpl in Hr1. rewrite lookup_insert_eq in Hr1. congruence. }
  subst its.
  assert (Hnd' : NoDup (kept items start count))
    by (eapply sublist_NoDup; [exact Hnd | apply kept_sublist; assumption]).
  split; [|split].
  - apply (overlay_text_lists _ _ _ _ _ _ _ E0).
    exact (lookup_weaken _ _ _ _ Hl Hsub).
  - exact Hr1'.
  - intros f a Hf Ha. apply (Hin Hnd' f a Hf).
    exact (lookup_weaken _ _ _ _ Ha Hsub).
Qed.

End NonDrawing.

Lemma pipeline_without_overlay_witness :
  match apply_pipeline 1%positive (take 10 (main_pipeline (cv := sample_cv2)))
          no_frames with
  | Ok (r, s') =>
      (forall l o, heap no_frames !! l = Some o -> heap s' !! l = Some o)
      /\ input_unchanged no_frames s' 1%positive
      /\ forall v, seq_value no_frames 1%positive = Some v ->
                   seq_value s' 1%positive = Some v
  | Raise _ => True
  end.
Proof.
  apply (pipeline_without_overlay (cv := sample_cv2) no_frames 1%positive
           (take 10 (main_pipeline (cv := sample_cv2)))).
  simpl. repeat (apply Forall_cons; split; [unfold non_drawing; simpl; auto 10|]).
  apply Forall_nil. exact I.
Defined.

(** On the stand-in library that pipeline does return: the three frames of
    the video and the image, grey and back, blurred. *)
Example pipeline_without_overlay_runs :
  run_value (frames <- alloc (OList []);;
             apply_pipeline frames (take 10 (main_pipeline (cv := sample_cv2))))
  = Some [NdArray [1; 2; 3]%nat [1; 1; 1; 0; 0; 0];
          NdArray [1; 2; 3]%nat [2; 2; 2; 0; 0; 0];
          NdArray [1; 2; 3]%nat [3; 3; 3; 0; 0; 0];
          sample_frame 9].
Proof. vm_compute. reflexivity. Qed.

Lemma overlay_after_cut_witness :
  match (x <- cut 4%positive 0 1;;
         overlay_text (cv := sample_cv2) x (VStr "Cats") (VTuple [30; 60])
           (VTuple [255; 200; 200])) three_frames with
  | Ok (r, s') =>
      heap s' !! 4%positive = Some (OList [1; 2; 3]%positive)
      /\ heap s' !! r = Some (OList (kept [1; 2; 3]%positive 0 1))
      /\ forall f a, f ∈ kept [1; 2; 3]%positive 0 1 ->
           heap three_frames !! f = Some (OArr a) ->
           exists a',
             putText (Cv2 := sample_cv2) a (VStr "Cats") (VTuple [30; 60])
               FONT_HERSHEY_SIMPLEX 1 (VTuple [255; 200; 200]) 2 = Ok a'
             /\ heap s' !! f = Some (OArr a')
  | Raise _ => True
  end.
Proof.
  apply (overlay_after_cut (cv := sample_cv2) three_frames 4%positive
           [1; 2; 3]%positive 0 1).
  - reflexivity.
  - apply (bool_decide_unpack _). vm_compute. exact I.
  - lia.
  - lia.
Defined.

(** There the first frame of the list given to [cut] has been drawn on. *)
Example overlay_after_cut_runs :
  match (x <- cut 4%positive 0 1;;
         overlay_text (cv := sample_cv2) x (VStr "Cats") (VTuple [30; 60])
           (VTuple [255; 200; 200])) three_frames with
  | Ok (r, s') =>
      seq_value s' 4%positive
      = Some [NdArray [1; 1]%nat [255]; NdArray [1; 1]%nat [255]; tagged 2]
  | Raise _ => False
  end.
Proof. vm_compute. reflexivity. Qed.

(** * The sinks *)

Lemma and_then_finished {A B} (m : outcome A) (k : A -> outcome B) a :
  ending m = inr a ->
  and_then m k = Outcome (events m ++ events (k a)) (ending (k a)).
Proof. unfold and_then. intros ->. reflexivity. Qed.

Lemma and_then_ext {A B} (m : outcome A) (k1 k2 : A -> outcome B) :
  (forall a, k1 a = k2 a) -> and_then m k1 = and_then m k2.
Proof.
  intros H. unfold and_then. destruct (ending m) as [e|a]; [reflexivity|].
  rewrite H. reflexivity.
Qed.

Lemma finished_then {A B} (a : A) (k : A -> outcome B) :
  and_then (finished a) k = k a.
Proof. unfold and_then. simpl. destruct (k a). reflexivity. Qed.

Lemma list_at_list s l items :
  heap s !! l = Some (OList items) -> list_at s l = finished items.
Proof. unfold list_at. intros ->. reflexivity. Qed.

Lemma frame_at_array s f a :
  heap s !! f = Some (OArr a) -> frame_at s f = finished a.
Proof. unfold frame_at. intros ->. reflexivity. Qed.

(** ** [save_video] *)


(** On an empty sequence [save_video] prints its warning and does nothing
    else: no directory is made and no writer is opened. *)
Theorem save_video_empty s frames output_path fps :
  heap s !! frames = Some (OList []) ->
  save_video s frames output_path fps = Outcome [NoFramesToSave] (inr tt).
Proof.
  intros Hl. unfold save_video. rewrite (list_at_list s frames [] Hl).
  reflexivity.
Qed.

Lemma save_video_empty_witness :
  save_video no_frames 1%positive "output.mp4" 30
  = Outcome [NoFramesToSave] (inr tt).
Proof.
  apply (save_video_empty no_frames 1%positive "output.mp4" 30). reflexivity.
Defined.



(** ** [play_video] *)

(** On an empty sequence [play_video] prints its warning and returns: no
    window is opened, no key is read, whatever keys are pending. *)
Theorem play_video_empty s frames keys :
  heap s !! frames = Some (OList []) ->
  play_video s frames keys = Outcome [NoFramesToDisplay] (inr Stopped).
Proof.
  intros Hl. unfold play_video. rewrite (list_at_list s frames [] Hl).
  reflexivity.
Qed.

Lemma play_video_empty_witness :
  play_video no_frames 1%positive [83; 32; 27]
  = Outcome [NoFramesToDisplay] (inr Stopped).
Proof.
  apply (play_video_empty no_frames 1%positive [83; 32; 27]). reflexivity.
Defined.


Lemma py_index_in_range {A} (xs : list A) (i : Z) :
  0 <= i < len xs ->
  exists x, xs !! Z.to_nat i = Some x /\ py_index xs i = finished x.
Proof.
  intros Hi. unfold py_index.
  destruct (Z.ltb_spec i 0) as [?|_]; [lia|].
  replace ((0 <=? i) && (i <? len xs)) with true
    by (symmetry; apply andb_true_iff; split;
        [apply Z.leb_le | apply Z.ltb_lt]; lia).
  destruct (lookup_lt_is_Some_2 xs (Z.to_nat i)) as [x Hx];
    [unfold len in Hi; lia|].
  exists x. rewrite Hx. split; reflexivity.
Qed.

Lemma play_loop_unfold s items keys current playing :
  play_loop s items keys current playing
  = and_then (py_index items current) (fun f =>
      and_then (frame_at s f) (fun a =>
        and_then (emit (ImShow "Video Player" a)) (fun _ =>
          after_show s items keys current playing))).
Proof. destruct keys; reflexivity. Qed.

(** With [current] in range the turn shows the frame at [current] and goes
    on. *)
Lemma play_loop_show s items v keys current playing :
  frames_are s items v ->
  0 <= current < len items ->
  exists a,
    v !! Z.to_nat current = Some a
    /\ play_loop s items keys current playing
       = Outcome
           (ImShow "Video Player" a
              :: events (after_show s items keys current playing))
           (ending (after_show s items keys current playing)).
Proof.
  intros Hv Hc.
  destruct (py_index_in_range items current Hc) as (f & Hf & Hidx).
  destruct (Forall2_lookup_l _ _ _ _ _ Hv Hf) as (a & Ha & Hfa).
  exists a. split; [exact Ha|].
  rewrite play_loop_unfold, Hidx, finished_then.
  rewrite (frame_at_array s f a Hfa), finished_then.
  reflexivity.
Qed.




Lemma play_loop_esc s items k rest : is_esc k ->
  forall ks current playing,
    play_loop s items (ks ++ k :: rest) current playing
    = play_loop s items (ks ++ [k]) current playing.
Proof.
  intros Hk. apply Z.eqb_eq in Hk.
  induction ks as [|k0 ks IH]; intros current playing;
    rewrite (play_loop_unfold s items (_ ++ k :: rest)),
            (play_loop_unfold s items (_ ++ [k]));
    apply and_then_ext; intros f; apply and_then_ext; intros a;
    apply and_then_ext; intros _; unfold after_show; simpl.
  - rewrite Hk. reflexivity.
  - destruct (Z.land k0 255 =? 27); [reflexivity|].
    destruct (tick (len items) (Z.land k0 255) current playing).
    apply IH.
Qed.

(** Keys that arrive after an ESC are not read: a run on keys up to and
    including an ESC is the whole run. *)
Theorem play_video_esc s frames ks k rest :
  is_esc k ->
  play_video s frames (ks ++ k :: rest) = play_video s frames (ks ++ [k]).
Proof.
  intros Hk. unfold play_video. apply and_then_ext. intros items.
  destruct items as [|f items]; [reflexivity|].
  rewrite (play_loop_esc s (f :: items) k rest Hk). reflexivity.
Qed.

Lemma play_video_esc_witness :
  play_video three_frames 4%positive ([-1; 83] ++ 283 :: [81; 32])
  = play_video three_frames 4%positive ([-1; 83] ++ [283]).
Proof.
  apply (play_video_esc three_frames 4%positive [-1; 83] 283 [81; 32]).
  reflexivity.
Defined.

Lemma tick_idle n k current :
  is_idle k -> tick n (Z.land k 255) current true = ((current + 1) mod n, true).
Proof.
  intros (_ & H32 & H81 & H83). unfold tick.
  apply Z.eqb_neq in H32, H81, H83. rewrite H32, H81, H83. reflexivity.
Qed.

Lemma playback_loop s items v keys : forall current,
  frames_are s items v ->
  Forall is_idle keys ->
  0 <= current < len items ->
  ending (play_loop s items keys current true)
  = inr (Waiting ((current + len keys) mod len items) true)
  /\ forall i, (i <= length keys)%nat ->
       events (play_loop s items keys current true) !! i
       = ImShow "Video Player"
         <$> v !! Z.to_nat ((current + Z.of_nat i) mod len items).
Proof.
  induction keys as [|k keys IH]; intros current Hv Hidle Hc;
    [ destruct (play_loop_show s items v [] current true Hv Hc)
        as (a & Ha & ->)
    | destruct (play_loop_show s items v (k :: keys) current true Hv Hc)
        as (a & Ha & ->) ];
    simpl.
  - split.
    + unfold len at 1. simpl. rewrite Z.add_0_r, Z.mod_small by lia.
      reflexivity.
    + intros i Hi. replace i with 0%nat by (simpl in Hi; lia). simpl.
      rewrite Z.add_0_r, Z.mod_small, Ha by lia. reflexivity.
  - apply Forall_cons in Hidle. destruct Hidle as [Hk Hkeys].
    destruct (Z.eqb_spec (Z.land k 255) 27) as [Hesc|_];
      [destruct Hk as [Hk _]; contradiction|].
    rewrite (tick_idle _ _ _ Hk).
    destruct (IH ((current + 1) mod len items) Hv Hkeys) as [Hend Hev];
      [apply Z.mod_pos_bound; lia|].
    split.
    + rewrite Hend. do 2 f_equal.
      rewrite Zplus_mod_idemp_l. f_equal. unfold len. simpl length. lia.
    + intros [|j] Hi.
      * simpl. rewrite Z.add_0_r, Z.mod_small, Ha by lia. reflexivity.
      * rewrite Nat2Z.inj_succ. cbn [lookup list_lookup events].
        rewrite Hev by (simpl in Hi; lia).
        rewrite Zplus_mod_idemp_l.
        match goal with
        | |- _ <$> _ !! Z.to_nat (?A mod _) = _ <$> _ !! Z.to_nat (?B mod _) =>
            replace A with B by lia
        end.
        reflexivity.
Qed.

(** While no key is pressed the player shows the frames in order and starts
    over after the last: on [m] idle keys it makes [m + 1] calls, the
    [i]-th showing frame [i mod len(frames)], and is left playing at frame
    [m mod len(frames)]. *)
Theorem playback_cycles s frames v keys :
  seq_value s frames = Some v ->
  v <> [] ->
  Forall is_idle keys ->
  ending (play_video s frames keys)
  = inr (Waiting (len keys mod len v) true)
  /\ forall i, (i <= length keys)%nat ->
       events (play_video s frames keys) !! i
       = ImShow "Video Player" <$> v !! Z.to_nat (Z.of_nat i mod len v).
Proof.
  intros Hv Hne Hidle. apply seq_value_frames in Hv.
  destruct Hv as (items & Hl & Hitems).
  assert (Hlen : len items = len v)
    by (unfold len; f_equal; exact (Forall2_length _ _ _ Hitems)).
  unfold play_video. rewrite (list_at_list s frames items Hl), finished_then.
  destruct items as [|f items].
  { apply Forall2_nil_inv_l in Hitems. contradiction. }
  destruct (playback_loop s (f :: items) v keys 0 Hitems Hidle) as [Hend Hev].
  { unfold len. simpl. lia. }
  rewrite (and_then_finished _ _ _ Hend). simpl.
  rewrite app_nil_r, <- Hlen. split; [reflexivity|].
  intros i Hi. rewrite (Hev i Hi). reflexivity.
Qed.

Lemma playback_cycles_witness :
  ending (play_video three_frames 4%positive [-1; -1; 255; 7])
  = inr (Waiting (len [-1; -1; 255; 7] mod len [tagged 0; tagged 1; tagged 2])
                 true)
  /\ forall i, (i <= length [-1; -1; 255; 7]%Z)%nat ->
       events (play_video three_frames 4%positive [-1; -1; 255; 7]) !! i
       = ImShow "Video Player"
         <$> [tagged 0; tagged 1; tagged 2]
             !! Z.to_nat (Z.of_nat i mod len [tagged 0; tagged 1; tagged 2]).
Proof.
  apply (playback_cycles three_frames 4%positive
           [tagged 0; tagged 1; tagged 2] [-1; -1; 255; 7]).
  - reflexivity.
  - discriminate.
  - repeat (apply Forall_cons; split;
            [unfold is_idle; vm_compute; repeat split; discriminate|]).
    apply Forall_nil. exact I.
Defined.

(** While playing, an arrow key is followed by the automatic advance of the
    same turn: after the left arrow the frame shown stays the same (from
    frame 1 on), and after the right arrow the player is two frames further,
    or at frame 0 when it was on the last one. *)
Theorem arrows_while_playing n current :
  1 <= current < n ->
  tick n 81 current true = (current, true)
  /\ (current + 1 < n -> tick n 83 current true = ((current + 2) mod n, true))
  /\ tick n 83 (n - 1) true = (0, true).
Proof.
  intros Hc. unfold tick. simpl.
  split; [|split].
  - rewrite Z.max_r by lia. rewrite Z.mod_small by lia. f_equal. lia.
  - intros Hlast. rewrite Z.min_r by lia. do 2 f_equal. lia.
  - rewrite Z.min_l by lia.
    replace (n - 1 + 1) with n by lia. rewrite Z.mod_same by lia. reflexivity.
Qed.

Lemma arrows_while_playing_witness :
  tick 5 81 2 true = (2, true)
  /\ (2 + 1 < 5 -> tick 5 83 2 true = ((2 + 2) mod 5, true))
  /\ tick 5 83 (5 - 1) true = (0, true).
Proof. apply (arrows_while_playing 5 2). lia. Defined.

(** * [main] when no source can be opened *)

Lemma run_step_run st frames s :
  forallb value_fits (step_args st) = true ->
  run_step st frames s
  = fn_call (step_func st) frames (step_args st)
      (State (heap s)
             (stdout s ++ [Applying (fn_name (step_func st)) (step_args st)])).
Proof.
  intros Hfmt. unfold run_step.
  rewrite (bind_run _ _ s tt
             (State (heap s)
                    (stdout s
                     ++ [Applying (fn_name (step_func st)) (step_args st)])))
    by (apply print_run; exact Hfmt).
  reflexivity.
Qed.

Lemma apply_pipeline_empty pipeline : forall frames s,
  Forall stays_empty pipeline ->
  heap s !! frames = Some (OList []) ->
  exists r s',
    apply_pipeline frames pipeline s = Ok (r, s')
    /\ heap s' !! r = Some (OList [])
    /\ heap s ⊆ heap s'.
Proof.
  induction pipeline as [|st rest IH]; intros frames s Hall Hl.
  - exists frames, s. split; [reflexivity|]. split; [exact Hl | reflexivity].
  - apply Forall_cons in Hall. destruct Hall as [Hst Hrest].
    destruct (Hst frames s Hl) as (r1 & s1 & Hrun1 & Hr1 & Hsub1).
    destruct (IH r1 s1 Hrest Hr1) as (r & s' & Hrun & Hr & Hsub).
    exists r, s'. rewrite apply_pipeline_cons, (bind_run _ _ _ _ _ Hrun1).
    split; [exact Hrun|]. split; [exact Hr | etrans; eassumption].
Qed.

Lemma cut_stays_empty start count :
  0 <= start < str_limit -> 0 <= count < str_limit ->
  stays_empty (Step cut_fn [VInt start; VInt count]).
Proof.
  intros [Hs Hs'] [Hc Hc'] frames s Hl.
  rewrite run_step_run
    by (cbn [step_args forallb value_fits];
        rewrite !fits_small by (split; assumption); reflexivity).
  cbn [step_func step_args fn_name fn_call cut_fn].
  match goal with
  | |- context [cut frames start count ?st] =>
      pose proof (cut_run st frames [] start count Hl Hs Hc
                    (or_introl Hs') (or_introl Hc')) as Hrun
  end.
  cbv zeta in Hrun. rewrite kept_nil in Hrun.
  eexists _, _. split; [exact Hrun|]. simpl.
  split; [apply lookup_insert_eq | apply alloc_extends].
Qed.

Section NoSources.
Context `{cv : Cv2}.
Hypothesis no_video : forall p, VideoCapture p = None.
Hypothesis no_image : forall p, imread p = None.

Lemma append_video_stays_empty video_path :
  stays_empty (Step append_video_fn [VStr video_path]).
Proof.
  intros frames s Hl. rewrite run_step_run by reflexivity. simpl.
  rewrite (append_video_unavailable _ _ _ (no_video _)).
  eexists _, _. split; [reflexivity|]. simpl. split; [exact Hl | reflexivity].
Qed.

Lemma append_image_stays_empty image_path :
  stays_empty (Step append_image_fn [VStr image_path]).
Proof.
  intros frames s Hl. rewrite run_step_run by reflexivity. simpl.
  rewrite (append_image_unavailable _ _ _ (no_image _)).
  eexists _, _. split; [reflexivity|]. simpl. split; [exact Hl | reflexivity].
Qed.

Lemma to_grayscale_nil frames s :
  heap s !! frames = Some (OList []) ->
  to_grayscale frames s
  = Ok (fresh (dom (heap s)),
        State (<[fresh (dom (heap s)) := OList []]> (heap s)) (stdout s)).
Proof.
  intros Hl. unfold to_grayscale.
  rewrite (bind_run _ _ s [] s) by (apply get_list_Ok; auto). reflexivity.
Qed.

Lemma ensure_3channel_nil frames s :
  heap s !! frames = Some (OList []) ->
  ensure_3channel frames s
  = Ok (fresh (dom (heap s)),
        State (<[fresh (dom (heap s)) := OList []]> (heap s)) (stdout s)).
Proof.
  intros Hl. unfold ensure_3channel.
  rewrite (bind_run _ _ s [] s) by (apply get_list_Ok; auto). reflexivity.
Qed.

Lemma blur_frames_nil frames ksize s :
  heap s !! frames = Some (OList []) ->
  blur_frames frames ksize s
  = Ok (fresh (dom (heap s)),
        State (<[fresh (dom (heap s)) := OList []]> (heap s)) (stdout s)).
Proof.
  intros Hl. unfold blur_frames.
  rewrite (bind_run _ _ s [] s) by (apply get_list_Ok; auto). reflexivity.
Qed.

Lemma overlay_text_nil frames text position color s :
  heap s !! frames = Some (OList []) ->
  overlay_text frames text position color s = Ok (frames, s).
Proof.
  intros Hl. unfold overlay_text.
  rewrite (bind_run _ _ s [] s) by (apply get_list_Ok; auto). reflexivity.
Qed.

Lemma to_grayscale_stays_empty : stays_empty (Step to_grayscale_fn []).
Proof.
  intros frames s Hl. rewrite run_step_run by reflexivity.
  change (fn_call (step_func (Step to_grayscale_fn [])) frames
            (step_args (Step to_grayscale_fn [])))
    with (to_grayscale frames).
  rewrite to_grayscale_nil by exact Hl.
  eexists _, _. split; [reflexivity|]. simpl.
  split; [apply lookup_insert_eq | apply alloc_extends].
Qed.

Lemma ensure_3channel_stays_empty : stays_empty (Step ensure_3channel_fn []).
Proof.
  intros frames s Hl. rewrite run_step_run by reflexivity.
  change (fn_call (step_func (Step ensure_3channel_fn [])) frames
            (step_args (Step ensure_3channel_fn [])))
    with (ensure_3channel frames).
  rewrite ensure_3channel_nil by exact Hl.
  eexists _, _. split; [reflexivity|]. simpl.
  split; [apply lookup_insert_eq | apply alloc_extends].
Qed.

Lemma blur_frames_stays_empty ksize :
  value_fits ksize = true ->
  stays_empty (Step blur_frames_fn [ksize]).
Proof.
  intros Hk frames s Hl.
  rewrite run_step_run
    by (cbn [step_args forallb]; rewrite Hk; reflexivity).
  change (fn_call (step_func (Step blur_frames_fn [ksize])) frames
            (step_args (Step blur_frames_fn [ksize])))
    with (blur_frames frames ksize).
  rewrite blur_frames_nil by exact Hl.
  eexists _, _. split; [reflexivity|]. simpl.
  split; [apply lookup_insert_eq | apply alloc_extends].
Qed.

Lemma overlay_text_stays_empty text position color :
  value_fits text = true -> value_fits position = true ->
  value_fits color = true ->
  stays_empty (Step overlay_text_fn [text; position; color]).
Proof.
  intros Ht Hp Hcol frames s Hl.
  rewrite run_step_run
    by (cbn [step_args forallb]; rewrite Ht, Hp, Hcol; reflexivity).
  change (fn_call (step_func (Step overlay_text_fn [text; position; color]))
            frames (step_args (Step overlay_text_fn [text; position; color])))
    with (overlay_text frames text position color).
  rewrite overlay_text_nil by exact Hl.
  eexists _, _. split; [reflexivity|]. simpl. split; [exact Hl | reflexivity].
Qed.

(** When neither a video nor an image can be opened, the pipeline of [main]
    still runs to its end without raising: the processed sequence is empty,
    no object that existed before is changed, [save_video] on it only warns
    that there are no frames (no file is written) and [play_video] only
    warns that there are none to display. *)
Theorem main_without_sources s keys :
  exists r s',
    main_frames s = Ok (r, s')
    /\ heap s' !! r = Some (OList [])
    /\ heap s ⊆ heap s'
    /\ save_video s' r "output.mp4" 30 = Outcome [NoFramesToSave] (inr tt)
    /\ play_video s' r keys = Outcome [NoFramesToDisplay] (inr Stopped).
Proof.
  unfold main_frames.
  set (frames := fresh (dom (heap s))).
  set (s1 := State (<[frames := OList []]> (heap s)) (stdout s)).
  rewrite (bind_run _ _ s frames s1) by reflexivity.
  destruct (apply_pipeline_empty main_pipeline frames s1) as (r & s' & Hrun & Hr & Hsub).
  - unfold main_pipeline.
    repeat (apply Forall_cons; split;
            [first [ apply append_video_stays_empty
                   | apply append_image_stays_empty
                   | apply cut_stays_empty; (split; [lia | reflexivity])
                   | apply to_grayscale_stays_empty
                   | apply ensure_3channel_stays_empty
                   | apply blur_frames_stays_empty; reflexivity
                   | apply overlay_text_stays_empty; reflexivity ]|]).
    apply Forall_nil. exact I.
  - simpl. apply lookup_insert_eq.
  - exists r, s'. split; [exact Hrun|]. split; [exact Hr|].
    split; [etrans; [apply alloc_extends | exact Hsub]|].
    split; [apply save_video_empty | apply play_video_empty]; exact Hr.
Qed.

End NoSources.

Lemma main_without_sources_witness :
  exists r s',
    main_frames (cv := offline_cv2) empty_state = Ok (r, s')
    /\ heap s' !! r = Some (OList [])
    /\ heap empty_state ⊆ heap s'
    /\ save_video s' r "output.mp4" 30 = Outcome [NoFramesToSave] (inr tt)
    /\ play_video s' r [32; 27] = Outcome [NoFramesToDisplay] (inr Stopped).
Proof.
  apply (main_without_sources (cv := offline_cv2)); reflexivity.
Defined.
